(** * ifscube: emission-line fitting of spectra and data cubes

    A shallow embedding of [ifscube/onedspec.py] ([scale_bounds],
    [Spectrum.linefit]) and of the parts of [ifscube/datacube.py] that drive
    a cube fit ([Cube._spiral], the refit block and the loop of
    [Cube.linefit]), followed by the properties of the specification that
    concern them.

    Conventions of the embedding.
    - numpy [float64] values are Rocq's primitive binary64 floats, so that
      NaN, division by zero and comparisons behave as they do in the
      source.  [np.sum] and [np.mean] of a contiguous array add its
      values the way numpy's pairwise summation does; [np.arctan2] is not
      among the operations of these floats and is taken as a parameter.
    - A Python object is a record of optional fields: [None] means that the
      attribute has not been assigned, and reading it raises
      [AttributeError].
    - Methods run in a state-and-exception monad.  The state survives an
      exception, as the mutations of a Python call do.
    - Arrays that the caller owns and the callee updates in place (the
      initial guess [p0], the dictionary [copts]) live in the state.
    - [scipy.optimize.minimize], [spectools.continuum] and the profile
      functions of [elprofile] are not part of these files: they are taken
      as parameters ([Externals]).
    - Element-wise operations on the arrays of the object follow numpy's
      broadcasting and a boolean-mask selection checks the length of its
      mask: a mismatch raises, as in the source. *)

From Stdlib Require Import List ZArith Bool String Lia Floats Uint63.
From Stdlib Require Import Permutation Sorted Reals Lra.
Import ListNotations.

(** ** Python: exceptions, the monad, dictionaries *)

Module Py.

Inductive exc : Type :=
| TypeError | AttributeError | NameError | KeyError
| ValueError | IndexError | RuntimeError | AssertionError.

Definition M (S A : Type) : Type := S -> (exc + A) * S.

Definition ret {S A : Type} (a : A) : M S A := fun s => (inr a, s).

Definition raise {S A : Type} (e : exc) : M S A := fun s => (inl e, s).

Definition bind {S A B : Type} (m : M S A) (k : A -> M S B) : M S B :=
  fun s => match m s with
           | (inl e, s') => (inl e, s')
           | (inr a, s') => k a s'
           end.

Definition get {S : Type} : M S S := fun s => (inr s, s).

Definition modify {S : Type} (f : S -> S) : M S unit := fun s => (inr tt, f s).

Definition lift {S A : Type} (r : exc + A) : M S A := fun s => (r, s).

(** Values stored in option dictionaries. *)
Inductive pyval : Type :=
| PInt (z : Z)
| PNum (x : float)
| PStr (s : string).

(** A [dict]: insertion-ordered, one entry per key. *)
Definition dict : Type := list (string * pyval).

(** [d[k] = v] (also one step of [d.update]). *)
Fixpoint dict_set (k : string) (v : pyval) (d : dict) : dict :=
  match d with
  | [] => [(k, v)]
  | (k', v') :: t =>
      if String.eqb k k' then (k, v) :: t else (k', v') :: dict_set k v t
  end.

End Py.

Import Py.

Declare Scope py_scope.
Delimit Scope py_scope with py.
Notation "x <- c ;; k" := (bind c (fun x => k))
  (at level 61, c at next level, right associativity) : py_scope.
Notation "c ;; k" := (bind c (fun _ => k))
  (at level 61, right associativity) : py_scope.

(** ** numpy: the array operations that the two files use *)

Module Np.

Open Scope float_scope.

Definition of_nat (n : nat) : float :=
  PrimFloat.of_uint63 (Uint63.of_Z (Z.of_nat n)).

(** An integer array element converted to [float64] (the sign is applied
    after converting the magnitude). *)
Definition of_Z (z : Z) : float :=
  match z with
  | Z0 => 0
  | Zpos _ => PrimFloat.of_uint63 (Uint63.of_Z z)
  | Zneg p => - PrimFloat.of_uint63 (Uint63.of_Z (Zpos p))
  end.

(** Element-wise binary operation on arrays of one length. *)
Definition map2 {A B C : Type} (f : A -> B -> C) (a : list A) (b : list B)
  : list C :=
  map (fun p => f (fst p) (snd p)) (combine a b).

(** Element-wise binary operation on two arrays of one dimension, with
    numpy's broadcasting: the lengths agree, or one of the arrays has a
    single element that is paired with every element of the other;
    otherwise [ValueError]. *)
Definition broadcast2 {A B C : Type} (f : A -> B -> C) (a : list A)
  (b : list B) : exc + list C :=
  if Nat.eqb (List.length a) (List.length b) then inr (map2 f a b)
  else match a, b with
       | [x], _ => inr (map (f x) b)
       | _, [y] => inr (map (fun x => f x y) a)
       | _, _ => inl ValueError
       end.

(** [a[mask]] for a boolean mask as long as [a]. *)
Definition select {A : Type} (mask : list bool) (a : list A) : list A :=
  map snd (filter fst (combine mask a)).

(** [a[mask]] for any boolean mask: a mask of another length raises
    [IndexError]. *)
Definition mask_select {A : Type} (mask : list bool) (a : list A)
  : exc + list A :=
  if Nat.eqb (List.length mask) (List.length a) then inr (select mask a)
  else inl IndexError.

(** The sum of an array along an axis that is not the fastest varying one
    in memory: the elements are added one by one, in order. *)
Definition sum_along (l : list float) : float := fold_left PrimFloat.add l 0.

Definition mean_along (l : list float) : float :=
  sum_along l / of_nat (List.length l).

(** The sum of a contiguous array of one dimension is numpy's pairwise
    summation.  Up to 128 elements: eight running sums over the blocks of
    eight elements, [r[j] += a[i + j]]. *)
Fixpoint block_sums (r a : list float) (nblocks : nat)
  : list float * list float :=
  match nblocks with
  | O => (r, a)
  | S k => block_sums (map2 PrimFloat.add r (firstn 8 a)) (skipn 8 a) k
  end.

(** [((r[0] + r[1]) + (r[2] + r[3])) + ((r[4] + r[5]) + (r[6] + r[7]))] *)
Definition sum8 (r : list float) : float :=
  match r with
  | [r0; r1; r2; r3; r4; r5; r6; r7] =>
      ((r0 + r1) + (r2 + r3)) + ((r4 + r5) + (r6 + r7))
  | _ => 0
  end.

(** From 8 to 128 elements: the running sums over the whole blocks, then
    the elements left over, one by one. *)
Definition pairwise_block (a : list float) : float :=
  let '(r, rest) := block_sums (firstn 8 a) (skipn 8 a)
                      (List.length a / 8 - 1) in
  fold_left PrimFloat.add rest (sum8 r).

(** [pairwise_sum(a, n)]: fewer than 8 elements are added one by one;
    above 128 the array is cut at [n / 2] rounded down to a multiple of 8
    and the sums of the two parts are added.  The recursion is on [fuel],
    of which the length of the array is enough ([pairwise_sum]). *)
Fixpoint pairwise_sum_rec (fuel : nat) (a : list float) : float :=
  let n := List.length a in
  if Nat.ltb n 8 then fold_left PrimFloat.add a 0
  else if Nat.leb n 128 then pairwise_block a
  else match fuel with
       | O => 0
       | S f =>
           let n2 := (n / 2 - (n / 2) mod 8)%nat in
           pairwise_sum_rec f (firstn n2 a) + pairwise_sum_rec f (skipn n2 a)
       end.

Definition pairwise_sum (a : list float) : float :=
  pairwise_sum_rec (List.length a) a.

(** [np.sum(a)] for a contiguous array of one dimension: the pairwise sum
    added to the identity 0 of the reduction. *)
Definition sum (l : list float) : float := 0 + pairwise_sum l.

(** [np.mean(a)] for such an array; the mean of an empty array is NaN. *)
Definition mean (l : list float) : float := sum l / of_nat (List.length l).

(** The order in which numpy sorts [float64] values: [<], with NaN after
    every number. *)
Definition sort_ltb (a b : float) : bool :=
  (a <? b) || (is_nan b && negb (is_nan a)).

Definition ones_like {A : Type} (a : list A) : list float := map (fun _ => 1) a.

Definition zeros_like {A : Type} (a : list A) : list float := map (fun _ => 0) a.

(** [a[::n] = f(a[::n])]: [f] applied in place to the elements at the
    indices 0, n, 2n, ...; [k] counts down to the next index to update. *)
Fixpoint stride_from {A : Type} (f : A -> A) (n k : nat) (a : list A)
  : list A :=
  match a with
  | [] => []
  | x :: t =>
      match k with
      | O => f x :: stride_from f n (Nat.pred n) t
      | S k' => x :: stride_from f n k' t
      end
  end.

Definition stride_map {A : Type} (f : A -> A) (n : nat) (a : list A) : list A :=
  stride_from f n 0 a.

(** An array of floats with one or two dimensions. *)
Inductive ndarray : Type :=
| Arr1 (v : list float)
| Arr2 (rows : list (list float)).

(** [len(a)]: the size of the first axis. *)
Definition len (a : ndarray) : nat :=
  match a with
  | Arr1 v => List.length v
  | Arr2 rows => List.length rows
  end.

(** [a[::n] /= c]: on a two-dimensional array the slice selects rows. *)
Definition stride_div (c : float) (n : nat) (a : ndarray) : ndarray :=
  match a with
  | Arr1 v => Arr1 (stride_map (fun x => x / c) n v)
  | Arr2 rows => Arr2 (stride_map (map (fun x => x / c)) n rows)
  end.

End Np.

Arguments Np.broadcast2 {A B C} f a b : simpl never.
Arguments Np.mask_select {A} mask a : simpl never.

(** ** onedspec.py *)

Module onedspec.

Open Scope float_scope.

(** One entry of [bounds]: the two-element list [[xmin, xmax]], where
    [None] means unbounded. *)
Definition bound : Type := (option float * option float)%type.

Definition scale_endpoint (scale_factor : float) (e : option float)
  : option float :=
  match e with
  | Some x => Some (x / scale_factor)
  | None => None
  end.

(** [scale_bounds]: works on a deep copy [b]; for every [j] of
    [b[::npars_pc]] and [k] in (0, 1), [j[k] /= scale_factor] unless
    [j[k]] is [None]. *)
Definition scale_bounds (bounds : list bound) (scale_factor : float)
  (npars_pc : nat) : list bound :=
  Np.stride_map
    (fun j => (scale_endpoint scale_factor (fst j),
               scale_endpoint scale_factor (snd j)))
    npars_pc bounds.

(** The profile functions of [elprofile]. *)
Inductive profile : Type := gauss | gausshermite.

(** What [minimize] returns: [r['x']] and [r.status]. *)
Record OptimizeResult : Type := {
  x : list float;
  status : Z
}.

(** The working values that [Spectrum.linefit] hands to [minimize]: the
    arrays captured by the objective [res], the start [x0] and the
    bounds. *)
Record working_values : Type := {
  work_wl : list float;
  work_s : list float;
  work_w : list float;
  work_v : list float;
  work_x0 : Np.ndarray;
  work_bounds : list bound
}.

(** Calls that leave the module, in the order they are made. *)
Inductive event : Type :=
| CallContinuum (wl data : list float) (copts : dict)
| CallMinimize (wv : working_values).

(** The number of calls of [minimize] in a trace. *)
Definition minimize_calls (t : list event) : nat :=
  List.length
    (filter (fun e => match e with CallMinimize _ => true | _ => false end) t).

(** The functions that [Spectrum.linefit] calls outside this module;
    [constraint] is the type of one [scipy] constraint dictionary. *)
Record Externals (constraint : Type) : Type := {
  (** [spectools.continuum(wl, data, **copts)[1]] *)
  continuum : list float -> list float -> dict -> exc + list float;
  (** [elprofile.gauss(wl, x)], [elprofile.gausshermite(wl, x)] *)
  profile_eval : profile -> list float -> list float -> list float;
  (** [scipy.optimize.minimize(res, x0=, method=, bounds=, constraints=,
      options=)] *)
  minimize : (list float -> float) -> Np.ndarray -> string -> list bound ->
             list constraint -> dict -> exc + OptimizeResult
}.

Arguments continuum {constraint} _ _ _ _.
Arguments profile_eval {constraint} _ _ _ _.
Arguments minimize {constraint} _ _ _ _ _ _ _.

(** The attributes of a [Spectrum] object.  [Spectrum()] sets none. *)
Record Spectrum : Type := {
  data : option (list float);
  wl : option (list float);
  restwl : option (list float);
  rest_wavelength : option (list float);
  variance : option (list float);
  flags : option (list bool);
  stellar : option (list float);
  cont : option (list float);
  fit_func : option profile;
  parnames : option (list string);
  fitcont : option (list float);
  fitwl : option (list float);
  fitspec : option (list float);
  resultspec : option (list float);
  em_model : option (list float);
  fit_status : option Z
}.

Definition new_Spectrum : Spectrum :=
  {| data := None; wl := None; restwl := None; rest_wavelength := None;
     variance := None; flags := None; stellar := None; cont := None;
     fit_func := None; parnames := None; fitcont := None; fitwl := None;
     fitspec := None; resultspec := None; em_model := None;
     fit_status := None |}.

Definition set_fit_func (v : profile) (o : Spectrum) : Spectrum :=
  {| data := data o; wl := wl o; restwl := restwl o;
     rest_wavelength := rest_wavelength o; variance := variance o;
     flags := flags o; stellar := stellar o; cont := cont o;
     fit_func := Some v; parnames := parnames o; fitcont := fitcont o;
     fitwl := fitwl o; fitspec := fitspec o; resultspec := resultspec o;
     em_model := em_model o; fit_status := fit_status o |}.

Definition set_parnames (v : list string) (o : Spectrum) : Spectrum :=
  {| data := data o; wl := wl o; restwl := restwl o;
     rest_wavelength := rest_wavelength o; variance := variance o;
     flags := flags o; stellar := stellar o; cont := cont o;
     fit_func := fit_func o; parnames := Some v; fitcont := fitcont o;
     fitwl := fitwl o; fitspec := fitspec o; resultspec := resultspec o;
     em_model := em_model o; fit_status := fit_status o |}.

Definition set_fitcont (v : list float) (o : Spectrum) : Spectrum :=
  {| data := data o; wl := wl o; restwl := restwl o;
     rest_wavelength := rest_wavelength o; variance := variance o;
     flags := flags o; stellar := stellar o; cont := cont o;
     fit_func := fit_func o; parnames := parnames o; fitcont := Some v;
     fitwl := fitwl o; fitspec := fitspec o; resultspec := resultspec o;
     em_model := em_model o; fit_status := fit_status o |}.

Definition set_fitwl (v : list float) (o : Spectrum) : Spectrum :=
  {| data := data o; wl := wl o; restwl := restwl o;
     rest_wavelength := rest_wavelength o; variance := variance o;
     flags := flags o; stellar := stellar o; cont := cont o;
     fit_func := fit_func o; parnames := parnames o; fitcont := fitcont o;
     fitwl := Some v; fitspec := fitspec o; resultspec := resultspec o;
     em_model := em_model o; fit_status := fit_status o |}.

Definition set_fitspec (v : list float) (o : Spectrum) : Spectrum :=
  {| data := data o; wl := wl o; restwl := restwl o;
     rest_wavelength := rest_wavelength o; variance := variance o;
     flags := flags o; stellar := stellar o; cont := cont o;
     fit_func := fit_func o; parnames := parnames o; fitcont := fitcont o;
     fitwl := fitwl o; fitspec := Some v; resultspec := resultspec o;
     em_model := em_model o; fit_status := fit_status o |}.

Definition set_resultspec (v : list float) (o : Spectrum) : Spectrum :=
  {| data := data o; wl := wl o; restwl := restwl o;
     rest_wavelength := rest_wavelength o; variance := variance o;
     flags := flags o; stellar := stellar o; cont := cont o;
     fit_func := fit_func o; parnames := parnames o; fitcont := fitcont o;
     fitwl := fitwl o; fitspec := fitspec o; resultspec := Some v;
     em_model := em_model o; fit_status := fit_status o |}.

Definition set_em_model (v : list float) (o : Spectrum) : Spectrum :=
  {| data := data o; wl := wl o; restwl := restwl o;
     rest_wavelength := rest_wavelength o; variance := variance o;
     flags := flags o; stellar := stellar o; cont := cont o;
     fit_func := fit_func o; parnames := parnames o; fitcont := fitcont o;
     fitwl := fitwl o; fitspec := fitspec o; resultspec := resultspec o;
     em_model := Some v; fit_status := fit_status o |}.

Definition set_fit_status (v : Z) (o : Spectrum) : Spectrum :=
  {| data := data o; wl := wl o; restwl := restwl o;
     rest_wavelength := rest_wavelength o; variance := variance o;
     flags := flags o; stellar := stellar o; cont := cont o;
     fit_func := fit_func o; parnames := parnames o; fitcont := fitcont o;
     fitwl := fitwl o; fitspec := fitspec o; resultspec := resultspec o;
     em_model := em_model o; fit_status := Some v |}.

(** The state of one call of [Spectrum.linefit]: the object, the caller's
    array [p0] (a numpy array of floats: line 245 divides a slice of it in
    place), the caller's dictionary [copts] ([None] when the caller passes
    none) and the calls made so far.  [bounds] is only read, through the
    deep copy of [scale_bounds], and is passed as a value. *)
Record heap : Type := {
  self : Spectrum;
  p0 : Np.ndarray;
  copts : option dict;
  trace : list event
}.

Definition getattr {A : Type} (f : Spectrum -> option A) : M heap A :=
  fun h => match f (self h) with
           | Some v => (inr v, h)
           | None => (inl AttributeError, h)
           end.

Definition setattr (upd : Spectrum -> Spectrum) : M heap unit :=
  modify (fun h => {| self := upd (self h); p0 := p0 h; copts := copts h;
                      trace := trace h |}).

Definition set_p0 (a : Np.ndarray) : M heap unit :=
  modify (fun h => {| self := self h; p0 := a; copts := copts h;
                      trace := trace h |}).

Definition set_copts (d : option dict) : M heap unit :=
  modify (fun h => {| self := self h; p0 := p0 h; copts := d;
                      trace := trace h |}).

Definition log (e : event) : M heap unit :=
  modify (fun h => {| self := self h; p0 := p0 h; copts := copts h;
                      trace := trace h ++ [e] |}).

Definition default_copts : dict :=
  [("niterate"%string, PInt 5); ("degr"%string, PInt 4);
   ("upper_threshold"%string, PInt 2); ("lower_threshold"%string, PInt 2)].

Definition count_true (l : list bool) : nat := List.length (filter (fun b : bool => b) l).

(** [np.sum(self.flags) > 0.8 * self.flags.size]; the literal is the
    binary64 value of 0.8. *)
Definition mostly_flagged (fl : list bool) : bool :=
  0x1.999999999999ap-1 * Np.of_nat (List.length fl) <? Np.of_nat (count_true fl).

(** The degrees of freedom [nu] of line 266. *)
Definition nu (npixels npars nconstraints : nat) (inst_disp : float) : float :=
  Np.of_nat npixels / inst_disp - Np.of_nat npars - Np.of_nat nconstraints - 1.

Section Linefit.

Variable constraint : Type.
Variable ext : Externals constraint.

(** The objective [res(x)] of [Spectrum.linefit], a closure over
    [self.fitwl], [s], [w] and [v].  Its arrays are paired element by
    element: they have one value per valid pixel when the profile returns
    one value per wavelength and the weights are left at [None]. *)
Definition res (f : profile) (wv : working_values) (xx : list float) : float :=
  let m := profile_eval ext f (work_wl wv) xx in
  let a := Np.map2 PrimFloat.mul (work_w wv)
             (map (fun d => d * d) (Np.map2 PrimFloat.sub (work_s wv) m)) in
  let b := Np.map2 PrimFloat.div a (work_v wv) in
  let rms := PrimFloat.sqrt (Np.sum b) in
  rms.

(** What lines 166-231 leave in the local variables when the fit is not
    called off at line 201. *)
Record prepared : Type := {
  npars : nat;
  npars_pc : nat;
  fit_func_ : profile;
  copts_ : dict;
  wl_ : list float;
  data_ : list float;
  cont_ : list float;
  s_ : list float;
  w_ : list float;
  v_ : list float
}.

(** Lines 169-180: the profile and the number of parameters of one
    component. *)
Definition select_profile (function : string) : M heap (profile * nat) :=
  (if String.eqb function "gaussian" then
     setattr (set_fit_func gauss) ;;
     setattr (set_parnames ["A"; "wl"; "s"]%string) ;;
     ret (gauss, 3%nat)
   else if String.eqb function "gauss_hermite" then
     setattr (set_fit_func gausshermite) ;;
     setattr (set_parnames ["A"; "wl"; "s"; "h3"; "h4"]%string) ;;
     ret (gausshermite, 5%nat)
   else raise NameError)%py.

(** Lines 182-186: the fitting window as a mask [fw] over the pixels. *)
Definition window (fitting_window : option (float * float))
  : M heap (list bool) :=
  match fitting_window with
  | None => (d <- getattr data ;; ret (map (fun _ => true) d))%py
  | Some (lo, hi) =>
      (wl1 <- getattr wl ;;
       wl2 <- getattr wl ;;
       ret (Np.map2 andb (map (fun e => lo <? e) wl1)
                         (map (fun e => e <? hi) wl2)))%py
  end.

(** Lines 203-231: the valid pixels, the selections, the pseudo continuum
    and the signal [s = data - cont]. *)
Definition pixels (npars npars_pc : nat) (fit_func : profile)
  (copts_local : dict) (fw : list bool) (weights : option (list float))
  : M heap (option prepared) :=
  (fl <- getattr flags ;;
   valid_pixels <- lift (Np.broadcast2 andb (map negb fl) fw) ;;
   rwl <- getattr restwl ;;
   wl <- lift (Np.mask_select valid_pixels rwl) ;;
   d <- getattr data ;;
   data <- lift (Np.mask_select valid_pixels d) ;;
   let weights := match weights with None => Np.ones_like data | Some w => w end in
   setattr (set_fitcont (Np.zeros_like data)) ;;
   setattr (set_fitwl wl) ;;
   setattr (set_fitspec (Np.zeros_like data)) ;;
   setattr (set_resultspec (Np.zeros_like data)) ;;
   h <- get ;;
   cont <- match cont (self h) with
           | Some c => ret c
           | None =>
               log (CallContinuum wl data copts_local) ;;
               lift (continuum ext wl data copts_local)
           end ;;
   setattr (set_fitcont cont) ;;
   s <- lift (Np.broadcast2 PrimFloat.sub data cont) ;;
   let w := weights in
   var <- getattr variance ;;
   v <- lift (Np.mask_select valid_pixels var) ;;
   ret (Some {| npars := npars; npars_pc := npars_pc; fit_func_ := fit_func;
                copts_ := copts_local; wl_ := wl; data_ := data;
                cont_ := cont; s_ := s; w_ := w; v_ := v |}))%py.

(** Lines 166-231 of [Spectrum.linefit]: the profile, the fitting window,
    the continuum options, the flag test, the valid pixels and the pseudo
    continuum.  [None] is the bare [return] of line 201. *)
Definition prepare (function : string) (fitting_window : option (float * float))
  (weights : option (list float)) : M heap (option prepared) :=
  (h0 <- get ;;
   let npars := Np.len (p0 h0) in
   let nan_solution := repeat nan (npars + 1) in
   sel <- select_profile function ;;
   let fit_func := fst sel in
   let npars_pc := snd sel in
   fw <- window fitting_window ;;
   let copts_local :=
     dict_set "returns" (PStr "function")
       match copts h0 with None => default_copts | Some d => d end in
   set_copts match copts h0 with None => None | Some _ => Some copts_local end ;;
   fl <- getattr flags ;;
   if mostly_flagged fl then
     let p := nan_solution in
     setattr (set_fit_status 98) ;;
     ret None
   else pixels npars npars_pc fit_func copts_local fw weights)%py.

(** Lines 237-277: the scaling, the call of [minimize] and what is stored
    afterwards.  [None] is the bare [return] of line 241. *)
Definition scale_and_fit (constraints : list constraint)
  (bounds : option (list bound)) (inst_disp : float) (min_method : string)
  (minopts : dict) (q : prepared) : M heap (option (list float)) :=
  (let nan_solution := repeat nan (npars q + 1) in
   let fit_func := fit_func_ q in
   let npars_pc := npars_pc q in
   let cont := cont_ q in
   let scale_factor := Np.mean (s_ q) in
   if scale_factor <=? 0 then
     let p := nan_solution in
     let fit_status := 97%Z in
     ret None
   else
     let s := map (fun e => e / scale_factor) (s_ q) in
     let v := if forallb (fun e => e =? 1) (v_ q) then v_ q
              else map (fun e => e / (scale_factor * scale_factor)) (v_ q) in
     h <- get ;;
     set_p0 (Np.stride_div scale_factor npars_pc (p0 h)) ;;
     sbounds <- match bounds with
                | None => raise TypeError
                | Some b => ret (scale_bounds b scale_factor npars_pc)
                end ;;
     h <- get ;;
     let wv := {| work_wl := wl_ q; work_s := s; work_w := w_ q; work_v := v;
                  work_x0 := p0 h; work_bounds := sbounds |} in
     log (CallMinimize wv) ;;
     r <- lift (minimize ext (res fit_func wv) (p0 h) min_method sbounds
                  constraints minopts) ;;
     let chi2 := res fit_func wv (x r) in
     let nu := Np.of_nat (List.length s) / inst_disp - Np.of_nat (npars q)
               - Np.of_nat (List.length constraints) - 1 in
     let red_chi2 := chi2 / nu in
     let p := x r ++ [red_chi2] in
     let fit_status := status r in
     let p := Np.stride_map (fun e => e * scale_factor) npars_pc p in
     let sol := p in
     fitspec <- lift (Np.broadcast2 PrimFloat.add
                        (map (fun e => e * scale_factor) s) cont) ;;
     setattr (set_fitspec fitspec) ;;
     resultspec <- lift (Np.broadcast2 PrimFloat.add cont
                           (map (fun e => e * scale_factor)
                              (profile_eval ext fit_func (wl_ q) (x r)))) ;;
     setattr (set_resultspec resultspec) ;;
     setattr (set_em_model sol) ;;
     setattr (set_fit_status fit_status) ;;
     ret (Some sol))%py.

(** [Spectrum.linefit(p0, function, fitting_window, ..., weights)] with
    [writefits] left at [False] (the FITS writer is file output).  The
    keyword [variance] is accepted and never read.  The result is the
    value returned: [None] for a bare [return]. *)
Definition linefit (function : string) (fitting_window : option (float * float))
  (constraints : list constraint) (bounds : option (list bound))
  (inst_disp : float) (min_method : string) (minopts : dict)
  (weights : option (list float)) : M heap (option (list float)) :=
  (q <- prepare function fitting_window weights ;;
   match q with
   | None => ret None
   | Some q => scale_and_fit constraints bounds inst_disp min_method minopts q
   end)%py.

(** What the local variables of [q] are in terms of the object: the
    window, the valid pixels and the selections of lines 182-206, the
    pseudo continuum of lines 219-223 and the difference of line 229. *)
Definition window_mask (fitting_window : option (float * float))
  (o : Spectrum) : option (list bool) :=
  match fitting_window with
  | None => option_map (map (fun _ => true)) (data o)
  | Some (lo, hi) =>
      option_map (fun w => Np.map2 andb (map (fun e => lo <? e) w)
                                        (map (fun e => e <? hi) w))
                 (wl o)
  end.

Definition valid_pixels (fitting_window : option (float * float))
  (o : Spectrum) : option (list bool) :=
  match window_mask fitting_window o, flags o with
  | Some fw, Some fl =>
      match Np.broadcast2 andb (map negb fl) fw with
      | inr v => Some v
      | inl _ => None
      end
  | _, _ => None
  end.

(** [a[valid_pixels]] for an attribute [a] of the object. *)
Definition valid_part (fitting_window : option (float * float))
  (o : Spectrum) (a : option (list float)) : option (list float) :=
  match valid_pixels fitting_window o, a with
  | Some v, Some x =>
      match Np.mask_select v x with
      | inr y => Some y
      | inl _ => None
      end
  | _, _ => None
  end.

Definition prepared_from (fitting_window : option (float * float))
  (weights : option (list float)) (h : heap) (q : prepared) : Prop :=
  valid_part fitting_window (self h) (restwl (self h)) = Some (wl_ q) /\
  valid_part fitting_window (self h) (data (self h)) = Some (data_ q) /\
  valid_part fitting_window (self h) (variance (self h)) = Some (v_ q) /\
  (cont (self h) = Some (cont_ q) \/
   (cont (self h) = None /\
    continuum ext (wl_ q) (data_ q) (copts_ q) = inr (cont_ q))) /\
  Np.broadcast2 PrimFloat.sub (data_ q) (cont_ q) = inr (s_ q) /\
  w_ q = match weights with
         | None => Np.ones_like (data_ q)
         | Some w => w
         end /\
  copts_ q = dict_set "returns" (PStr "function")
               match copts h with None => default_copts | Some d => d end.

End Linefit.

Arguments pixels constraint ext npars npars_pc fit_func copts_local fw weights
  : simpl never.

(** The number of calls of [spectools.continuum] in a trace. *)
Definition continuum_calls (t : list event) : nat :=
  List.length
    (filter (fun e => match e with CallContinuum _ _ _ => true | _ => false end)
            t).

End onedspec.

(** ** datacube.py *)

Module datacube.

(** A spatial coordinate [(row, column)], as the rows of [spec_indices]. *)
Definition coord : Type := (Z * Z)%type.

(** *** Cube._spiral

    The arithmetic of [_spiral] is kept apart from its control flow: the
    function is written over the operations it uses, of which [float64]
    is the instance that the source runs ([float_arith]).  [ltb] is the
    comparison [<] and [sort_ltb] the order that sorting puts on the
    values of one field. *)

Record Arith : Type := {
  num : Type;
  of_int : Z -> num;
  add : num -> num -> num;
  sub : num -> num -> num;
  mul : num -> num -> num;
  div : num -> num -> num;
  sqrt : num -> num;
  arctan2 : num -> num -> num;
  pi : num;
  ltb : num -> num -> bool;
  sort_ltb : num -> num -> bool
}.

Section Spiral.

Variable A : Arith.

(** One element of the structured array [b]: [(radius, angle)]. *)
Definition key : Type := (num A * num A)%type.

(** Order of the structured array under [order=['radius', 'angle']]: the
    radii are compared, and the angles when neither radius is before the
    other. *)
Definition key_ltb (a b : key) : bool :=
  if sort_ltb A (fst a) (fst b) then true
  else if sort_ltb A (fst b) (fst a) then false
  else sort_ltb A (snd a) (snd b).

(** [np.argsort]: the indices that sort the keys.  Written as a stable
    insertion sort; numpy fixes the result only up to the order of equal
    keys. *)
Fixpoint insert (e : key * nat) (l : list (key * nat)) : list (key * nat) :=
  match l with
  | [] => [e]
  | h :: t => if key_ltb (fst h) (fst e) then h :: insert e t else e :: h :: t
  end.

Definition sort (l : list (key * nat)) : list (key * nat) :=
  fold_right insert [] l.

Definition argsort (b : list key) : list nat :=
  map snd (sort (combine b (seq 0 (List.length b)))).

(** [a.max()]: raises [ValueError] on an empty array. *)
Definition max (a : list Z) : exc + Z :=
  match a with
  | [] => inl ValueError
  | h :: t => inr (fold_left Z.max t h)
  end.

(** [a[s]] for an index array [s] (indices produced by [argsort]). *)
Definition take (a : list Z) (s : list nat) : list Z :=
  map (fun i => nth i a 0%Z) s.

(** The coordinates that [_spiral] orders: [xy] for a binned cube,
    [self.spec_indices] otherwise. *)
Definition traversed (binned : bool) (spec_indices xy : list coord)
  : list coord :=
  if binned then xy else spec_indices.

(** The centre in use: [spiral_center], or half the largest column and
    half the largest row. *)
Definition center (x y : list Z) (spiral_center : option (num A * num A))
  : exc + (num A * num A) :=
  match spiral_center with
  | Some c => inr c
  | None =>
      match max x with
      | inl e => inl e
      | inr xm =>
          match max y with
          | inl e => inl e
          | inr ym => inr (div A (of_int A xm) (of_int A 2),
                           div A (of_int A ym) (of_int A 2))
          end
      end
  end.

Definition radius (c : num A * num A) (p : coord) : num A :=
  let dx := sub A (of_int A (snd p)) (fst c) in
  let dy := sub A (of_int A (fst p)) (snd c) in
  sqrt A (add A (mul A dx dx) (mul A dy dy)).

Definition angle (c : num A * num A) (p : coord) : num A :=
  let t := arctan2 A (sub A (of_int A (fst p)) (snd c))
                     (sub A (of_int A (snd p)) (fst c)) in
  if ltb A t (of_int A 0) then add A t (mul A (of_int A 2) (pi A)) else t.

Definition _spiral (binned : bool) (spec_indices xy : list coord)
  (spiral_center : option (num A * num A)) : exc + list coord :=
  let pts := traversed binned spec_indices xy in
  let y := map fst pts in
  let x := map snd pts in
  match center x y spiral_center with
  | inl e => inl e
  | inr c =>
      let b := map (fun p => (radius c p, angle c p)) pts in
      let s := argsort b in
      inr (combine (take y s) (take x s))
  end.

End Spiral.

(** The arithmetic that the source runs: [float64].  [np.arctan2] is
    a parameter; [x.max() / 2.] converts the integer to [float64] before
    dividing; [np.pi] is the [float64] nearest to pi.  A centre is a pair
    of [float64] values (one given as integers is read as the floats of
    the same values). *)
Definition float_arith (arctan2 : float -> float -> float) : Arith :=
  {| num := float; of_int := Np.of_Z; add := PrimFloat.add;
     sub := PrimFloat.sub; mul := PrimFloat.mul; div := PrimFloat.div;
     sqrt := PrimFloat.sqrt; arctan2 := arctan2;
     pi := 0x1.921fb54442d18p+1%float; ltb := PrimFloat.ltb;
     sort_ltb := Np.sort_ltb |}.

(** The words of the specification for the first sort key: the Euclidean
    distance, over the real numbers, of the coordinate [p] from the centre
    [c]; [c] is [(column, row)] and [p] is [(row, column)], as in the
    source. *)
Definition euclidean_distance (c : R * R) (p : coord) : R :=
  R_sqrt.sqrt ((IZR (snd p) - fst c) * (IZR (snd p) - fst c)
               + (IZR (fst p) - snd c) * (IZR (fst p) - snd c))%R.

(** The real number that a finite [float64] stands for. *)
Definition real_value (x : float) : option R :=
  match Prim2SF x with
  | S754_zero _ => Some 0%R
  | S754_finite s m e =>
      let v := (IZR (Zpos m) * powerRZ 2 e)%R in
      Some (if s then (- v)%R else v)
  | _ => None
  end.

(** [m] is the largest element of [a]. *)
Definition is_max (m : Z) (a : list Z) : Prop :=
  In m a /\ Forall (fun z => (z <= m)%Z) a.

(** The order in which [_spiral] leaves two coordinates, [p] before [q]:
    the radius of [q] does not sort before that of [p], and either the
    radius of [p] sorts before that of [q] or the angle of [q] does not
    sort before that of [p]. *)
Definition spiral_le (A : Arith) (c : num A * num A) (p q : coord) : Prop :=
  sort_ltb A (radius A c q) (radius A c p) = false /\
  (sort_ltb A (radius A c p) (radius A c q) = true \/
   sort_ltb A (angle A c q) (angle A c p) = false).

(** *** Cube.linefit *)

Open Scope float_scope.

(** The keyword arguments [**kwargs]; [None] means that the key is absent
    (for the keys of [Spectrum.linefit] an explicit [None] value binds the
    same default).  The keys [variance], [weights] and [flags], which
    lines 842-861 fold into the cube's arrays before the loop, are left
    out. *)
Record Kwargs (constraint : Type) : Type := {
  kw_function : option string;
  kw_fitting_window : option (float * float);
  kw_constraints : option (list constraint);
  kw_bounds : option (list onedspec.bound);
  kw_inst_disp : option float;
  kw_min_method : option string;
  kw_minopts : option dict;
  kw_copts : option dict;
  kw_feature_wl : option (list float)
}.

Arguments kw_function {constraint} _.
Arguments kw_fitting_window {constraint} _.
Arguments kw_constraints {constraint} _.
Arguments kw_bounds {constraint} _.
Arguments kw_inst_disp {constraint} _.
Arguments kw_min_method {constraint} _.
Arguments kw_minopts {constraint} _.
Arguments kw_copts {constraint} _.
Arguments kw_feature_wl {constraint} _.

(** The attributes of a [Cube] that the loop reads.  [shape] is
    [self.data.shape[1:]]; an array indexed by spaxel is a function of the
    coordinate. *)
Record Cube : Type := {
  binned : bool;
  shape : nat * nat;
  rest_wavelength : list float;
  data : coord -> list float;
  variance : coord -> list float;
  flags : coord -> list bool;
  stellar : coord -> list float;
  spec_indices : list coord;
  (** rows [(ycoords, xcoords, binNum)] of [self.voronoi_tab] *)
  voronoi_tab : list (coord * Z);
  (** [self.eqw_model] on entry: [None] until a fit has stored one *)
  eqw_model0 : option (coord -> list float)
}.

(** [np.indices(shape)] flattened in row-major order. *)
Definition grid (sh : nat * nat) : list coord :=
  flat_map (fun i => map (fun j => (Z.of_nat i, Z.of_nat j)) (seq 0 (snd sh)))
           (seq 0 (fst sh)).

Definition coord_eqb (a b : coord) : bool :=
  Z.eqb (fst a) (fst b) && Z.eqb (snd a) (snd b).

(** [arr[:, i, j] = v] *)
Definition store {V : Type} (arr : coord -> V) (h : coord) (v : V)
  : coord -> V :=
  fun c => if coord_eqb c h then v else arr c.

(** [radsol = sqrt((yy - i) ** 2 + (xx - j) ** 2)] at one spaxel. *)
Definition radsol (h c : coord) : float :=
  PrimFloat.sqrt
    (Np.of_Z ((fst c - fst h) * (fst c - fst h)
              + (snd c - snd h) * (snd c - snd h))).

(** The rows of [nearsol.transpose()]: for every spaxel within
    [refit_radius] whose status is 0, in row-major order, its solution
    without the last entry ([sol[:-1, ...]]). *)
Definition nearsol_T (sh : nat * nat) (sol : coord -> list float)
  (fit_status : coord -> Z) (h : coord) (refit_radius : float)
  : list (list float) :=
  map (fun c => removelast (sol c))
      (filter (fun c => (radsol h c <? refit_radius) && Z.eqb (fit_status c) 0)
              (grid sh)).

(** [np.any(nearsol)]: some entry is not zero. *)
Definition any (rows : list (list float)) : bool :=
  existsb (existsb (fun e => negb (e =? 0))) rows.

(** [np.average(nearsol.transpose(), 0)] for [npars] parameters. *)
Definition average (npars : nat) (rows : list (list float)) : list float :=
  map (fun k => Np.mean (map (fun row => nth k row nan) rows)) (seq 0 npars).

(** Lines 943-950: the initial guess after the refit block.  [npars] is
    [len(p0)] on entry of [Cube.linefit]; [nearsol] has shape
    [(npars, len rows)]. *)
Definition refit_guess (sh : nat * nat) (npars : nat)
  (sol : coord -> list float) (fit_status : coord -> Z) (h : coord)
  (refit_radius : float) (p0 : Np.ndarray) : Np.ndarray :=
  let rows := nearsol_T sh sol fit_status h refit_radius in
  if Nat.eqb npars 5 && Nat.eqb (List.length rows) 1 then Np.Arr2 rows
  else if any rows then Np.Arr1 (average npars rows)
  else p0.

Section Linefit.

Variable constraint : Type.
Variable ext : onedspec.Externals constraint.

(** [cubetools.bound_updater(p0, bound_range, bounds=original_bounds)] *)
Variable bound_updater :
  Np.ndarray -> float -> option (list onedspec.bound) ->
  option (list onedspec.bound).

(** The local variables of [Cube.linefit] and the attributes it assigns,
    from line 837 on. *)
Record frame : Type := {
  fit_status : coord -> Z;
  sol : coord -> list float;
  fitcont : coord -> list float;
  fitspec : coord -> list float;
  resultspec : coord -> list float;
  eqw_model : option (coord -> list float);
  feature_wl : option (list float);
  fit_ref : option coord;
  is_first_spec : bool;
  p0 : Np.ndarray;
  kwargs : Kwargs constraint;
  spec : option onedspec.Spectrum;
  calls : list onedspec.event
}.

Definition with_arrays (fs : coord -> Z) (so fc fp rs : coord -> list float)
  (f : frame) : frame :=
  {| fit_status := fs; sol := so; fitcont := fc; fitspec := fp;
     resultspec := rs; eqw_model := eqw_model f; feature_wl := feature_wl f;
     fit_ref := fit_ref f; is_first_spec := is_first_spec f; p0 := p0 f;
     kwargs := kwargs f; spec := spec f; calls := calls f |}.

Definition with_locals (fw : option (list float)) (r : option coord)
  (first : bool) (f : frame) : frame :=
  {| fit_status := fit_status f; sol := sol f; fitcont := fitcont f;
     fitspec := fitspec f; resultspec := resultspec f;
     eqw_model := eqw_model f; feature_wl := fw; fit_ref := r;
     is_first_spec := first; p0 := p0 f; kwargs := kwargs f;
     spec := spec f; calls := calls f |}.

Definition with_call (a : Np.ndarray) (kw : Kwargs constraint)
  (sp : option onedspec.Spectrum) (ev : list onedspec.event) (f : frame)
  : frame :=
  {| fit_status := fit_status f; sol := sol f; fitcont := fitcont f;
     fitspec := fitspec f; resultspec := resultspec f;
     eqw_model := eqw_model f; feature_wl := feature_wl f;
     fit_ref := fit_ref f; is_first_spec := is_first_spec f; p0 := a;
     kwargs := kw; spec := sp; calls := ev |}.

Definition set_bounds (b : option (list onedspec.bound))
  (kw : Kwargs constraint) : Kwargs constraint :=
  {| kw_function := kw_function kw;
     kw_fitting_window := kw_fitting_window kw;
     kw_constraints := kw_constraints kw; kw_bounds := b;
     kw_inst_disp := kw_inst_disp kw; kw_min_method := kw_min_method kw;
     kw_minopts := kw_minopts kw; kw_copts := kw_copts kw;
     kw_feature_wl := kw_feature_wl kw |}.

Definition set_copts (d : option dict) (kw : Kwargs constraint)
  : Kwargs constraint :=
  {| kw_function := kw_function kw;
     kw_fitting_window := kw_fitting_window kw;
     kw_constraints := kw_constraints kw; kw_bounds := kw_bounds kw;
     kw_inst_disp := kw_inst_disp kw; kw_min_method := kw_min_method kw;
     kw_minopts := kw_minopts kw; kw_copts := d;
     kw_feature_wl := kw_feature_wl kw |}.

Definition default {V : Type} (d : V) (o : option V) : V :=
  match o with Some v => v | None => d end.

(** Lines 934-939: a [Spectrum()] with five attributes assigned. *)
Definition spaxel_spectrum (cube : Cube) (h : coord) : onedspec.Spectrum :=
  {| onedspec.data := Some (data cube h);
     onedspec.wl := None;
     onedspec.restwl := None;
     onedspec.rest_wavelength := Some (rest_wavelength cube);
     onedspec.variance := Some (variance cube h);
     onedspec.flags := Some (flags cube h);
     onedspec.stellar := Some (stellar cube h);
     onedspec.cont := None;
     onedspec.fit_func := None;
     onedspec.parnames := None;
     onedspec.fitcont := None;
     onedspec.fitwl := None;
     onedspec.fitspec := None;
     onedspec.resultspec := None;
     onedspec.em_model := None;
     onedspec.fit_status := None |}.

(** Lines 941-954. *)
Definition refit_block (cube : Cube) (npars : nat) (update_bounds : bool)
  (bound_range refit_radius : float)
  (original_bounds : option (list onedspec.bound)) (h : coord)
  : M frame unit :=
  (f <- get ;;
   let rows := nearsol_T (shape cube) (sol f) (fit_status f) h refit_radius in
   let guess := refit_guess (shape cube) npars (sol f) (fit_status f) h
                  refit_radius (p0 f) in
   let averaged := negb (Nat.eqb npars 5 && Nat.eqb (List.length rows) 1)
                   && any rows in
   let kw := if averaged && update_bounds
             then set_bounds (bound_updater guess bound_range original_bounds)
                    (kwargs f)
             else kwargs f in
   modify (with_call guess kw (spec f) (calls f)))%py.

(** Line 956, [spec.linefit(p0, **kwargs)]: a keyword that
    [Spectrum.linefit] does not declare raises [TypeError] before the body
    runs; otherwise the body runs on the object, on the array bound to
    [p0] and on the dictionary passed as [copts], which the caller keeps
    seeing afterwards. *)
Definition call_linefit : M frame unit :=
  fun f =>
    let kw := kwargs f in
    match kw_feature_wl kw with
    | Some _ => (inl TypeError, f)
    | None =>
        match spec f with
        | None => (inl AttributeError, f)
        | Some sp =>
            let h := {| onedspec.self := sp; onedspec.p0 := p0 f;
                        onedspec.copts := kw_copts kw;
                        onedspec.trace := [] |} in
            let out :=
              onedspec.linefit constraint ext
                (default "gaussian"%string (kw_function kw))
                (kw_fitting_window kw)
                (default [] (kw_constraints kw))
                (kw_bounds kw)
                (default 1 (kw_inst_disp kw))
                (default "SLSQP"%string (kw_min_method kw))
                (default [("eps"%string, PNum 0x1.0624dd2f1a9fcp-10)]
                         (kw_minopts kw))
                None h in
            let h' := snd out in
            let f' := with_call (onedspec.p0 h')
                        (set_copts (onedspec.copts h') kw)
                        (Some (onedspec.self h'))
                        (calls f ++ onedspec.trace h') f in
            match fst out with
            | inl e => (inl e, f')
            | inr _ => (inr tt, f')
            end
        end
    end.

(** [spec.<name>] for an attribute of the spectrum just fitted. *)
Definition spec_attr {V : Type} (a : onedspec.Spectrum -> option V)
  : M frame V :=
  fun f => match spec f with
           | Some sp =>
               match a sp with
               | Some v => (inr v, f)
               | None => (inl AttributeError, f)
               end
           | None => (inl AttributeError, f)
           end.

(** [spec.<name>] for a name that [Spectrum] never assigns
    ([component_names], [fitstellar], [eqw_model], [eqw_direct],
    [initial_guess], [fitbounds]). *)
Definition spec_attr_unset {V : Type} : M frame V := raise AttributeError.

(** Lines 984-987: the assignments of the unbinned branch up to the first
    attribute that is never there, [spec.fitstellar]. *)
Definition scatter_at (h : coord) : M frame unit :=
  (em <- spec_attr onedspec.em_model ;;
   modify (fun f => with_arrays (fit_status f) (store (sol f) h em)
                      (fitcont f) (fitspec f) (resultspec f) f) ;;
   fc <- spec_attr onedspec.fitcont ;;
   modify (fun f => with_arrays (fit_status f) (sol f)
                      (store (fitcont f) h fc) (fitspec f) (resultspec f) f) ;;
   fp <- spec_attr onedspec.fitspec ;;
   modify (fun f => with_arrays (fit_status f) (sol f) (fitcont f)
                      (store (fitspec f) h fp) (resultspec f) f) ;;
   spec_attr_unset)%py.

(** Lines 971-975: the same for one member [(l, m)] of a bin, where
    [resultspec] comes before [fitstellar]. *)
Definition scatter_member (h : coord) : M frame unit :=
  (em <- spec_attr onedspec.em_model ;;
   modify (fun f => with_arrays (fit_status f) (store (sol f) h em)
                      (fitcont f) (fitspec f) (resultspec f) f) ;;
   fc <- spec_attr onedspec.fitcont ;;
   modify (fun f => with_arrays (fit_status f) (sol f)
                      (store (fitcont f) h fc) (fitspec f) (resultspec f) f) ;;
   fp <- spec_attr onedspec.fitspec ;;
   modify (fun f => with_arrays (fit_status f) (sol f) (fitcont f)
                      (store (fitspec f) h fp) (resultspec f) f) ;;
   rs <- spec_attr onedspec.resultspec ;;
   modify (fun f => with_arrays (fit_status f) (sol f) (fitcont f)
                      (fitspec f) (store (resultspec f) h rs) f) ;;
   spec_attr_unset)%py.

Fixpoint for_each {V : Type} (body : V -> M frame unit) (l : list V)
  : M frame unit :=
  match l with
  | [] => ret tt
  | h :: t => (body h ;; for_each body t)%py
  end.

(** Lines 927-995: the body of the loop for the coordinate [h]. *)
Definition visit (cube : Cube) (npars : nat) (refit update_bounds : bool)
  (bound_range refit_radius : float)
  (original_bounds : option (list onedspec.bound)) (h : coord)
  : M frame unit :=
  (let bin_num :=
     map snd (filter (fun row => coord_eqb (fst row) h) (voronoi_tab cube)) in
   f <- get ;;
   modify (with_call (p0 f) (kwargs f) (Some (spaxel_spectrum cube h))
             (calls f)) ;;
   (if refit && negb (is_first_spec f)
    then refit_block cube npars update_bounds bound_range refit_radius
           original_bounds h
    else ret tt) ;;
   call_linefit ;;
   f <- get ;;
   fw <- match kw_feature_wl (kwargs f) with
         | Some v => ret v
         | None => raise KeyError
         end ;;
   modify (with_locals (Some fw) (fit_ref f) (is_first_spec f)) ;;
   (if is_first_spec f
    then st <- spec_attr onedspec.fit_status ;;
         if Z.eqb st 0
         then modify (with_locals (Some fw) (fit_ref f) false)
         else ret tt
    else ret tt) ;;
   f <- get ;;
   match eqw_model f with
   | None => spec_attr_unset
   | Some _ => ret tt
   end ;;
   if binned cube
   then for_each scatter_member
          (map fst (filter (fun row => existsb (Z.eqb (snd row)) bin_num)
                           (voronoi_tab cube)))
   else scatter_at h)%py.

(** [Cube.linefit] from line 837 on, entered with the coordinate sequence
    [xy] that lines 875-910 select ([individual_spec] is [None], so the
    value returned is [sol]). *)
Definition linefit (cube : Cube) (p0_arg : Np.ndarray) (refit : bool)
  (update_bounds : bool) (bound_range refit_radius : float)
  (kw : Kwargs constraint) (xy : list coord) : M frame (coord -> list float) :=
  (let npars := Np.len p0_arg in
   let original_bounds := kw_bounds kw in
   match xy with
   | [] => raise IndexError
   | first :: _ =>
       f <- get ;;
       modify (with_locals (feature_wl f) (Some first) true) ;;
       (if Nat.eqb (List.length xy) 0 then raise RuntimeError else ret tt) ;;
       for_each (visit cube npars refit update_bounds bound_range refit_radius
                   original_bounds) xy ;;
       _ <- spec_attr onedspec.fitwl ;;
       _ <- spec_attr onedspec.fit_func ;;
       _ <- spec_attr onedspec.parnames ;;
       _ <- @spec_attr_unset unit ;;
       f <- get ;;
       ret (sol f)
   end)%py.

(** Lines 821-829: the number of pixels inside the fitting window. *)
Definition fit_npixels (cube : Cube) (kw : Kwargs constraint) : nat :=
  match kw_fitting_window kw with
  | Some (lo, hi) =>
      List.length (filter (fun e => (lo <? e) && (e <? hi))
                          (rest_wavelength cube))
  | None => List.length (rest_wavelength cube)
  end.

(** The frame on entry: lines 837 and 863-871. *)
Definition enter (cube : Cube) (p0_arg : Np.ndarray) (kw : Kwargs constraint)
  : frame :=
  let npars := Np.len p0_arg in
  {| fit_status := fun _ => (-1)%Z;
     sol := fun _ => repeat 0 (npars + 1);
     fitcont := fun _ => repeat 0 (fit_npixels cube kw);
     fitspec := fun _ => repeat 0 (fit_npixels cube kw);
     resultspec := fun _ => repeat 0 (fit_npixels cube kw);
     eqw_model := eqw_model0 cube;
     feature_wl := None;
     fit_ref := None;
     is_first_spec := true;
     p0 := p0_arg;
     kwargs := kw;
     spec := None;
     calls := [] |}.

End Linefit.

(** *** Cube._set_spec_indices, Cube._arg2cube, Cube._fit_table *)

(** [Cube._set_spec_indices]: the spatial mask in use ([None] becomes a
    mask of [False]) and the coordinates where it is [False], in the
    row-major order of [np.indices]. *)
Definition _set_spec_indices (sh : nat * nat)
  (spatial_mask : option (coord -> bool)) : (coord -> bool) * list coord :=
  let mask := match spatial_mask with
              | Some m => m
              | None => fun _ => false
              end in
  (mask, filter (fun c => negb (mask c)) (grid sh)).

(** Row-major order of two coordinates. *)
Definition row_major_lt (a b : coord) : Prop :=
  (fst a < fst b)%Z \/ (fst a = fst b /\ (snd a < snd b)%Z).

(** The argument of [_arg2cube], by the number of its dimensions. *)
Inductive cube_arg : Type :=
| ArgScalar (a : float)
| ArgSpectrum (a : list float)
| ArgImage (a : coord -> float)
| ArgCube (a : coord -> list float).

(** [cube[:, i, j] = a] for a one-dimensional [a]: the lengths agree, or
    [a] has one element, or numpy raises [ValueError]. *)
Definition assign (old a : list float) : exc + list float :=
  if Nat.eqb (List.length a) (List.length old) then inr a
  else if Nat.eqb (List.length a) 1 then inr (map (fun _ => hd 0 a) old)
  else inl ValueError.

(** Lines 207-208: the loop over [self.spec_indices]; the cube is updated
    in place, so what was assigned before an exception stays. *)
Fixpoint assign_all (spec_indices : list coord) (a : list float)
  : M (coord -> list float) unit :=
  match spec_indices with
  | [] => ret tt
  | h :: t =>
      fun cube =>
        match assign (cube h) a with
        | inl e => (inl e, cube)
        | inr v => assign_all t a (store cube h v)
        end
  end.

(** [Cube._arg2cube(arg, cube)]: the state is the array [cube], which is
    also the value returned.  A two-dimensional [arg] has the spatial
    shape of the cube. *)
Definition _arg2cube (spec_indices : list coord) (arg : cube_arg)
  : M (coord -> list float) unit :=
  match arg with
  | ArgScalar a => modify (fun cube c => map (fun e => e * a) (cube c))
  | ArgSpectrum a => assign_all spec_indices a
  | ArgImage a => modify (fun cube c => map (fun _ => a c) (cube c))
  | ArgCube _ => ret tt
  end.

(** The table HDU that [Cube._fit_table] returns, by its two columns of
    strings as they read back. *)
Record name_table : Type := {
  component : list string;
  parameter : list string
}.

(** [Cube._fit_table]: the columns [component] and [parameter] of the
    table of names.  [stored] is what [fits.table_to_hdu] makes of one
    string: a FITS column of characters has a fixed width and keeps no
    trailing space. *)
Definition _fit_table (stored : string -> string)
  (cnames pnames : list string) : name_table :=
  {| component :=
       map stored (flat_map (fun i => map (fun _ => i) pnames) cnames);
     parameter :=
       map stored (flat_map (fun _ => map (fun i => i) pnames) cnames) |}.

(** [a[::n]]: a step of zero raises [ValueError]. *)
Fixpoint every_from {V : Type} (n k : nat) (a : list V) : list V :=
  match a with
  | [] => []
  | v :: t =>
      match k with
      | O => v :: every_from n (Nat.pred n) t
      | S k' => every_from n k' t
      end
  end.

Definition every {V : Type} (n : nat) (a : list V) : exc + list V :=
  if Nat.eqb n 0 then inl ValueError else inr (every_from n 0 a).

(** Line 1100 of [Cube.loadfit]: the component names read back from the
    column [component], [par_table['component'][::self.npars]]. *)
Definition loadfit_component_names (npars : nat) (par_table : name_table)
  : exc + list string :=
  every npars (component par_table).

(** [np.pi] *)
Definition np_pi : float := 0x1.921fb54442d18p+1.

(** [Cube.lineflux(amplitude, sigma)] *)
Definition lineflux (amplitude sigma : float) : float :=
  amplitude * abs sigma * PrimFloat.sqrt (2 * np_pi).

(** *** The bins of a Voronoi table *)

(** [np.unique(a)]: the distinct values in ascending order. *)
Fixpoint insert_unique (z : Z) (l : list Z) : list Z :=
  match l with
  | [] => [z]
  | h :: t =>
      if (z <? h)%Z then z :: h :: t
      else if (z =? h)%Z then h :: t
      else h :: insert_unique z t
  end.

Definition unique (a : list Z) : list Z := fold_right insert_unique [] a.

(** The index of the first occurrence of [z] in [a]. *)
Fixpoint first_index (z : Z) (a : list Z) : nat :=
  match a with
  | [] => 0
  | h :: t => if (h =? z)%Z then 0 else S (first_index z t)
  end.

(** [np.unique(a, return_index=True)[1]]: for every distinct value, in
    ascending order, the index of its first occurrence. *)
Definition unique_index (a : list Z) : list nat :=
  map (fun z => first_index z a) (unique a).

(** Lines 876-879 of [Cube.linefit]: one coordinate per bin of the
    Voronoi table, the rows being [(ycoords, xcoords, binNum)]. *)
Definition bin_representatives (voronoi_tab : list (coord * Z)) : list coord :=
  map (fun i => fst (nth i voronoi_tab ((0, 0), 0)%Z))
      (unique_index (map snd voronoi_tab)).

(** *** Cube.continuum *)

(** The truth value of a float in Python: [bool(x)] is [x != 0], which
    holds for NaN. *)
Definition truthy (e : float) : bool := negb (e =? 0).

(** Lines 456-457 of [Cube.continuum]: the test on the first and the last
    20 samples of a spectrum. *)
Definition edge_guard (s : list float) : bool :=
  let first := firstn 20 s in
  let last := skipn (List.length s - 20) s in
  (existsb truthy first && existsb truthy last)
  || (existsb is_nan first && existsb is_nan last).

(** [k in d] *)
Definition dict_mem (k : string) (d : dict) : bool :=
  existsb (fun kv => String.eqb k (fst kv)) d.

Definition continuum_default_copts : dict :=
  [("degr"%string, PInt 3); ("upper_threshold"%string, PInt 2);
   ("lower_threshold"%string, PInt 2); ("niterate"%string, PInt 5)].

Section Continuum.

Variable constraint : Type.
Variable ext : onedspec.Externals constraint.

(** Lines 454-471: the body of the loop for the coordinate [h] of a cube
    that is not binned.  [TypeError] and [ValueError], from the estimator
    or from the assignment of its result, leave NaN in the spaxel. *)
Definition continuum_spaxel (wl : list float) (copts : dict)
  (data : coord -> list float) (c : coord -> list float) (h : coord)
  : exc + (coord -> list float) :=
  let s := data h in
  let nans := map (fun _ => nan) (c h) in
  if edge_guard s then
    match onedspec.continuum ext wl s copts with
    | inr cont1 =>
        match assign (c h) cont1 with
        | inr v => inr (store c h v)
        | inl _ => inr (store c h nans)
        end
    | inl TypeError => inr (store c h nans)
    | inl ValueError => inr (store c h nans)
    | inl e => inl e
    end
  else inr (store c h nans).

Fixpoint continuum_loop (wl : list float) (copts : dict)
  (data : coord -> list float) (xy : list coord) (c : coord -> list float)
  : exc + (coord -> list float) :=
  match xy with
  | [] => inr c
  | h :: t =>
      match continuum_spaxel wl copts data c h with
      | inl e => inl e
      | inr c' => continuum_loop wl copts data t c'
      end
  end.

(** [Cube.continuum(fitting_window=, copts=)] for a cube that is not
    binned (lines 430-432), with [writefits] left at [False].  The state
    is the caller's dictionary [copts]; the value is the array [c], also
    stored in [self.cont].  The coordinates of [spec_indices] lie in the
    spatial shape of the cube, as [_set_spec_indices] builds them. *)
Definition continuum (cube : Cube) (fitting_window : option (float * float))
  : M (option dict) (coord -> list float) :=
  fun copts =>
    match fitting_window with
    | None => (inl TypeError, copts)
    | Some (lo, hi) =>
        let fwidx := map (fun e => (lo <? e) && (e <? hi))
                         (rest_wavelength cube) in
        let wl := Np.select fwidx (rest_wavelength cube) in
        let data := fun c => Np.select fwidx (data cube c) in
        let c := fun h => Np.zeros_like (data h) in
        let local := match copts with
                     | None => continuum_default_copts
                     | Some d => d
                     end in
        let local := if dict_mem "returns" local then local
                     else dict_set "returns" (PStr "function") local in
        (continuum_loop wl local data (spec_indices cube) c,
         match copts with None => None | Some _ => Some local end)
    end.

(** What the loop leaves in a visited spaxel whose window holds the [n]
    samples [s]. *)
Definition continuum_value (wl : list float) (copts : dict) (s : list float)
  (n : nat) : list float :=
  if edge_guard s then
    match onedspec.continuum ext wl s copts with
    | inr cont1 =>
        match assign (repeat 0 n) cont1 with
        | inr v => v
        | inl _ => repeat nan n
        end
    | inl _ => repeat nan n
    end
  else repeat nan n.

End Continuum.

(** *** Cube.w80: the parameters of a component *)

(** [a[k]] on the first axis of an array, for an integer [k]: a negative
    index counts from the end, an index out of range raises
    [IndexError]. *)
Definition np_item {V : Type} (a : list V) (k : Z) : exc + V :=
  let n := Z.of_nat (List.length a) in
  let k' := if (k <? 0)%Z then (k + n)%Z else k in
  if (k' <? 0)%Z || (n <=? k')%Z then inl IndexError
  else match nth_error a (Z.to_nat k') with
       | Some v => inr v
       | None => inl IndexError
       end.

(** [a[ks]] for an array of indices [ks]. *)
Fixpoint np_items {V : Type} (a : list V) (ks : list Z) : exc + list V :=
  match ks with
  | [] => inr []
  | k :: t =>
      match np_item a k with
      | inl e => inl e
      | inr v =>
          match np_items a t with
          | inl e => inl e
          | inr vs => inr (v :: vs)
          end
      end
  end.

(** Lines 1132-1140 of [Cube.w80]: the indices of the parameters of
    [component] and the test on the component number.  [npars] is 3 or 5,
    as lines 1125-1130 select it; [nplanes] is [self.em_model.shape[0]]. *)
Definition w80_indexes (npars component : Z) (nplanes : nat)
  : exc + (list Z * Z * Z) :=
  let par_indexes := map (fun k => (Z.of_nat k + npars * component)%Z)
                         (seq 0 (Z.to_nat npars)) in
  let center_index := (1 + npars * component)%Z in
  let sigma_index := (2 + npars * component)%Z in
  if (center_index >? Z.of_nat nplanes)%Z then inl RuntimeError
  else inr (par_indexes, center_index, sigma_index).

(** That test followed by the reads of lines 1152-1158 for the spaxel
    [h]: the centre, the sigma and the parameters of the component.  The
    array [em_model] is the list of its planes. *)
Definition w80_parameters (npars component : Z)
  (em_model : list (coord -> float)) (h : coord)
  : exc + (float * float * list float) :=
  match w80_indexes npars component (List.length em_model) with
  | inl e => inl e
  | inr (par_indexes, center_index, sigma_index) =>
      match np_item em_model center_index with
      | inl e => inl e
      | inr cwl =>
          match np_item em_model sigma_index with
          | inl e => inl e
          | inr sig =>
              match np_items em_model par_indexes with
              | inl e => inl e
              | inr pars => inr (cwl h, sig h, map (fun p => p h) pars)
              end
          end
      end
  end.

(** *** Cube.voronoi_binning: the binned arrays *)

(** [v[v[:, 2] == i, :2]]: the coordinates of the rows of bin [i]. *)
Definition samebin_coords (v : list (coord * Z)) (i : Z) : list coord :=
  map fst (filter (fun r => Z.eqb (snd r) i) v).

(** [np.mean(arr[..., ys, xs], axis=1)]: for each of the [nchan] channels
    the mean over the coordinates [cs], whose values are added one by one
    (in the selection the axis of the coordinates is not the fastest
    varying one). *)
Definition bin_mean (arr : coord -> list float) (nchan : nat)
  (cs : list coord) : list float :=
  map (fun w => Np.mean_along (map (fun c => nth w (arr c) nan) cs))
      (seq 0 nchan).

(** Lines 1557-1578: the loop over the coordinates of one bin. *)
Definition fill_bin (arr : coord -> list float) (nchan : nat)
  (cs : list coord) (b : coord -> list float) : coord -> list float :=
  fold_left (fun b k => store b k (bin_mean arr nchan cs)) cs b.

(** Lines 1553-1578: the loop over the bin numbers [0 .. nbins - 1]. *)
Definition bin_loop (arr : coord -> list float) (nchan : nat)
  (v : list (coord * Z)) (nbins : nat) (b : coord -> list float)
  : coord -> list float :=
  fold_left (fun b i => fill_bin arr nchan (samebin_coords v (Z.of_nat i)) b)
            (seq 0 nbins) b.

(** Lines 1523-1534 and 1546-1578 of [Cube.voronoi_binning] for one of
    the two arrays [self.data] and [self.variance]: [sh] is the spatial
    shape, [nchan] the number of channels, [signal] the image
    [self.signal] and [bin_num] the bin numbers that
    [voronoi_2d_binning] returned for the spaxels whose signal is not
    NaN.  The value is the array [b_data] (or [b_variance]). *)
Definition binned_array (sh : nat * nat) (nchan : nat)
  (signal : coord -> float) (bin_num : list Z) (arr : coord -> list float)
  : exc + (coord -> list float) :=
  let valid := filter (fun c => negb (is_nan (signal c))) (grid sh) in
  let invalid := filter (fun c => is_nan (signal c)) (grid sh) in
  if negb (Nat.eqb (List.length bin_num) (List.length valid))
  then inl ValueError
  else
    let v := combine valid bin_num in
    let b := fun c => if existsb (coord_eqb c) invalid
                      then repeat nan nchan else repeat 0 nchan in
    match max bin_num with
    | inl e => inl e
    | inr m => inr (bin_loop arr nchan v (Z.to_nat (m + 1)) b)
    end.

End datacube.

(** ** Sample inputs

    Concrete spectra and a small cube on which the model is run.  The
    external functions are replaced by stand-ins: a continuum of zeros, a
    profile of zeros, and an optimizer that returns its starting point
    with status 0. *)

Module Samples.

Import onedspec.

Open Scope float_scope.

Definition ext0 : Externals unit :=
  {| continuum := fun _ d _ => inr (Np.zeros_like d);
     profile_eval := fun _ w _ => Np.zeros_like w;
     minimize := fun _ x0 _ _ _ _ =>
       inr {| x := match x0 with
                   | Np.Arr1 v => v
                   | Np.Arr2 rows => List.concat rows
                   end;
              status := 0 |} |}.

Definition wavelengths : list float := [1; 2; 3; 4; 5; 6; 7; 8; 9].

(** A spectrum of nine pixels with constant flux [flux], variance 1, the
    flags [fl] and a stored continuum of 1. *)
Definition spectrum (flux : float) (fl : list bool) : Spectrum :=
  {| data := Some (repeat flux 9);
     wl := Some wavelengths;
     restwl := Some wavelengths;
     rest_wavelength := None;
     variance := Some (repeat 1 9);
     flags := Some fl;
     stellar := None;
     cont := Some (repeat 1 9);
     fit_func := None; parnames := None; fitcont := None; fitwl := None;
     fitspec := None; resultspec := None; em_model := None;
     fit_status := None |}.

(** The initial guess [4, 5000, 1.8]. *)
Definition guess : Np.ndarray := Np.Arr1 [4; 5000; 0x1.ccccccccccccdp+0].

Definition bounds3 : list bound :=
  [(Some 0, None); (None, None); (Some 1, Some 4)].

Definition heap_of (o : Spectrum) : heap :=
  {| self := o; p0 := guess; copts := Some [("degr"%string, PInt 4)];
     trace := [] |}.

(** Flux 3 over a continuum of 1: the scale factor is 2. *)
Definition bright : heap := heap_of (spectrum 3 (repeat false 9)).

(** The same with every pixel flagged. *)
Definition flagged : heap := heap_of (spectrum 3 (repeat true 9)).

(** Flux 0 under a continuum of 1: the scale factor is -1. *)
Definition faint : heap := heap_of (spectrum 0 (repeat false 9)).

(** [linefit(p0, bounds=b)] with every other argument at its default. *)
Definition fit (b : option (list bound)) (h : heap)
  : (exc + option (list float)) * heap :=
  linefit unit ext0 "gaussian" None [] b 1 "SLSQP"
    [("eps"%string, PNum 0x1.0624dd2f1a9fcp-10)] None h.

Definition empty_prepared : prepared :=
  {| npars := 0; npars_pc := 0; fit_func_ := gauss; copts_ := [];
     wl_ := []; data_ := []; cont_ := []; s_ := []; w_ := []; v_ := [] |}.

(** The local variables that [prepare] leaves for the heap [h]. *)
Definition prepared_of (h : heap) : prepared :=
  match fst (prepare unit ext0 "gaussian" None None h) with
  | inr (Some q) => q
  | _ => empty_prepared
  end.

Definition heap_after_prepare (h : heap) : heap :=
  snd (prepare unit ext0 "gaussian" None None h).

(** A cube of one row and two columns after a five-parameter fit has
    converged at [(0, 0)]. *)
Definition sol_one (c : datacube.coord) : list float :=
  if datacube.coord_eqb c (0%Z, 0%Z)
  then [1; 2; 3; 4; 5; 0x1p-1] else repeat 0 6.

Definition status_one (c : datacube.coord) : Z :=
  if datacube.coord_eqb c (0%Z, 0%Z) then 0%Z else (-1)%Z.

(** A cube of one row and two columns, ready to be fitted: the pixels of
    spaxel [(0, 0)] are all flagged, those of [(0, 1)] are clean. *)
Definition cube2 : datacube.Cube :=
  {| datacube.binned := false;
     datacube.shape := (1%nat, 2%nat);
     datacube.rest_wavelength := wavelengths;
     datacube.data := fun _ => repeat 3 9;
     datacube.variance := fun _ => repeat 1 9;
     datacube.flags := fun c => if datacube.coord_eqb c (0%Z, 0%Z)
                                then repeat true 9 else repeat false 9;
     datacube.stellar := fun _ => repeat 0 9;
     datacube.spec_indices := [(0, 0); (0, 1)]%Z;
     datacube.voronoi_tab := [];
     datacube.eqw_model0 := None |}.

(** The keywords [bounds=bounds3] and, when [fw] is given,
    [feature_wl=fw]. *)
Definition kwargs2 (fw : option (list float)) : datacube.Kwargs unit :=
  {| datacube.kw_function := None;
     datacube.kw_fitting_window := None;
     datacube.kw_constraints := None;
     datacube.kw_bounds := Some bounds3;
     datacube.kw_inst_disp := None;
     datacube.kw_min_method := None;
     datacube.kw_minopts := None;
     datacube.kw_copts := None;
     datacube.kw_feature_wl := fw |}.

(** [Cube.linefit(guess, **kwargs2 fw)] over the coordinates [xy]. *)
Definition cube_fit (fw : option (list float)) (xy : list datacube.coord)
  : (exc + (datacube.coord -> list float)) * datacube.frame unit :=
  datacube.linefit unit ext0 (fun _ _ b => b) cube2 guess false false
    0x1.999999999999ap-4 3 (kwargs2 fw) xy
    (datacube.enter unit cube2 guess (kwargs2 fw)).

(** The same call with [refit=True]. *)
Definition cube_refit (fw : option (list float)) (xy : list datacube.coord)
  : (exc + (datacube.coord -> list float)) * datacube.frame unit :=
  datacube.linefit unit ext0 (fun _ _ b => b) cube2 guess true false
    0x1.999999999999ap-4 3 (kwargs2 fw) xy
    (datacube.enter unit cube2 guess (kwargs2 fw)).

(** The four spaxels of a 2 x 2 cube. *)
Definition square : list datacube.coord :=
  [(0, 0); (0, 1); (1, 0); (1, 1)]%Z.

(** A stand-in for [np.arctan2] on the samples: the angle of the half
    axis or of the diagonal of the quadrant that holds the point
    [(x, y)]. *)
Definition arctan2_coarse (y x : float) : float :=
  let pi := 0x1.921fb54442d18p+1 in
  if 0 <? x
  then (if 0 <? y then pi / 4 else if y <? 0 then - (pi / 4) else 0)
  else if x <? 0
  then (if 0 <? y then 3 * pi / 4
        else if y <? 0 then - (3 * pi / 4) else pi)
  else (if 0 <? y then pi / 2 else if y <? 0 then - (pi / 2) else 0).

(** The [float64] numbers nearest to 0.7 and 1.4. *)
Definition off_centre : float * float :=
  (0x1.6666666666666p-1, 0x1.6666666666666p+0).

(** What a FITS column of characters gives back for a string written to
    it, on the samples: the string without its trailing spaces. *)
Fixpoint rstrip (s : string) : string :=
  match s with
  | EmptyString => EmptyString
  | String c t =>
      match rstrip t with
      | EmptyString =>
          if Ascii.eqb c (Ascii.ascii_of_nat 32) then EmptyString else String c EmptyString
      | t' => String c t'
      end
  end.

(** A spectrum of nine pixels with flux 3 and no flags, with the rest
    wavelengths [rw] and the stored continuum [ct], either of which may be
    unset. *)
Definition spectrum_with (rw ct : option (list float)) : Spectrum :=
  {| data := Some (repeat 3 9);
     wl := Some wavelengths;
     restwl := rw;
     rest_wavelength := None;
     variance := Some (repeat 1 9);
     flags := Some (repeat false 9);
     stellar := None;
     cont := ct;
     fit_func := None; parnames := None; fitcont := None; fitwl := None;
     fitspec := None; resultspec := None; em_model := None;
     fit_status := None |}.

(** A spectrum without a stored continuum, fitted with [copts] left at
    [None]. *)
Definition fresh : heap :=
  {| self := spectrum_with (Some wavelengths) None; p0 := guess;
     copts := None; trace := [] |}.

(** A spectrum on which [restwl] was never set. *)
Definition no_restwl : heap :=
  heap_of (spectrum_with None (Some (repeat 1 9))).

(** The same with flags for three pixels only. *)
Definition no_restwl_short_flags : heap :=
  heap_of
    {| data := Some (repeat 3 9);
       wl := Some wavelengths;
       restwl := None;
       rest_wavelength := None;
       variance := Some (repeat 1 9);
       flags := Some (repeat false 3);
       stellar := None;
       cont := Some (repeat 1 9);
       fit_func := None; parnames := None; fitcont := None; fitwl := None;
       fitspec := None; resultspec := None; em_model := None;
       fit_status := None |}.

(** [linefit(p0, fitting_window=fw, bounds=b)]. *)
Definition fit_in (fw : option (float * float)) (b : option (list bound))
  (h : heap) : (exc + option (list float)) * heap :=
  linefit unit ext0 "gaussian" fw [] b 1 "SLSQP"
    [("eps"%string, PNum 0x1.0624dd2f1a9fcp-10)] None h.

Definition prepared_in (fw : option (float * float)) (h : heap) : prepared :=
  match fst (prepare unit ext0 "gaussian" fw None h) with
  | inr (Some q) => q
  | _ => empty_prepared
  end.

Definition heap_after_prepare_in (fw : option (float * float)) (h : heap)
  : heap :=
  snd (prepare unit ext0 "gaussian" fw None h).

(** A window that holds none of the nine wavelengths. *)
Definition far_window : option (float * float) := Some (100, 200).

(** The window from 2.5 to 7.5, which holds the wavelengths 3 to 7. *)
Definition narrow_window : option (float * float) :=
  Some (0x1.4p+1, 0x1.ep+2).

(** A continuum estimator that fails on a spectrum whose first sample is
    negative. *)
Definition ext1 : Externals unit :=
  {| continuum := fun _ d _ =>
       if hd 0 d <? 0 then inl ValueError else inr (Np.zeros_like d);
     profile_eval := profile_eval ext0;
     minimize := minimize ext0 |}.

(** The cube of two spaxels with a negative flux at [(0, 0)]. *)
Definition cube3 : datacube.Cube :=
  {| datacube.binned := false;
     datacube.shape := (1%nat, 2%nat);
     datacube.rest_wavelength := wavelengths;
     datacube.data := fun c => if datacube.coord_eqb c (0%Z, 0%Z)
                               then repeat (-3) 9 else repeat 3 9;
     datacube.variance := fun _ => repeat 1 9;
     datacube.flags := fun _ => repeat false 9;
     datacube.stellar := fun _ => repeat 0 9;
     datacube.spec_indices := [(0, 0); (0, 1)]%Z;
     datacube.voronoi_tab := [];
     datacube.eqw_model0 := None |}.

(** The solution array of a fit of one Gaussian component: three
    parameter planes and the plane of the reduced chi squared. *)
Definition em_model1 : list (datacube.coord -> float) :=
  [fun _ => 4; fun _ => 5000; fun _ => 0x1.ccccccccccccdp+0;
   fun _ => 0x1.3333333333333p+0].

End Samples.

(** * Properties *)

(** ** Strided updates *)

Lemma stride_hit_shift :
  forall n i : nat,
    (0 < n)%nat ->
    (Nat.pred n <=? i)%nat && ((i - Nat.pred n) mod n =? 0)%nat
    = (S i mod n =? 0)%nat.
Proof.
  intros n i Hn.
  destruct (le_lt_dec (Nat.pred n) i) as [Hle | Hlt].
  - replace (S i) with ((i - Nat.pred n) + 1 * n)%nat by lia.
    rewrite Nat.Div0.mod_add.
    apply Nat.leb_le in Hle. now rewrite Hle.
  - rewrite (Nat.mod_small (S i) n) by lia.
    apply Nat.leb_gt in Hlt. now rewrite Hlt.
Qed.

(** The element at index [i] is updated exactly when [i] is one of
    [k], [k + n], [k + 2 n], ... *)
Lemma nth_stride_from :
  forall (A : Type) (f : A -> A) (n : nat) (d : A),
    (0 < n)%nat ->
    forall (l : list A) (k i : nat),
      (i < List.length l)%nat ->
      nth i (Np.stride_from f n k l) d
      = if (k <=? i)%nat && ((i - k) mod n =? 0)%nat
        then f (nth i l d) else nth i l d.
Proof.
  intros A f n d Hn l.
  induction l as [| a t IH]; intros k i Hi; simpl in Hi; [lia |].
  destruct k as [| k'], i as [| i']; simpl Np.stride_from; simpl nth.
  - now rewrite Nat.Div0.mod_0_l.
  - rewrite IH by lia. rewrite stride_hit_shift by exact Hn.
    now rewrite Nat.sub_0_r.
  - reflexivity.
  - rewrite IH by lia. reflexivity.
Qed.

Lemma nth_stride_map :
  forall (A : Type) (f : A -> A) (n : nat) (d : A) (l : list A) (i : nat),
    (0 < n)%nat ->
    (i < List.length l)%nat ->
    nth i (Np.stride_map f n l) d
    = if (i mod n =? 0)%nat then f (nth i l d) else nth i l d.
Proof.
  intros A f n d l i Hn Hi. unfold Np.stride_map.
  rewrite nth_stride_from by assumption.
  now rewrite Nat.sub_0_r.
Qed.

Lemma stride_from_length :
  forall (A : Type) (f : A -> A) (n : nat) (l : list A) (k : nat),
    List.length (Np.stride_from f n k l) = List.length l.
Proof.
  intros A f n l. induction l as [| a t IH]; intros k; [reflexivity |].
  destruct k; simpl; now rewrite IH.
Qed.

(** The last element of a strided update. *)
Lemma last_stride_map :
  forall (A : Type) (f : A -> A) (n : nat) (d : A) (l : list A) (e : A),
    (0 < n)%nat ->
    (List.length l mod n = 0)%nat ->
    last (Np.stride_map f n (l ++ [e])) d = f e.
Proof.
  intros A f n d l e Hn Hmod.
  assert (Hlen : List.length (Np.stride_map f n (l ++ [e]))
                 = S (List.length l)).
  { unfold Np.stride_map. rewrite stride_from_length, length_app. simpl. lia. }
  destruct (@exists_last _ (Np.stride_map f n (l ++ [e]))) as (l' & z & Heq).
  { intros H. rewrite H in Hlen. discriminate Hlen. }
  rewrite Heq, last_last.
  assert (Hl' : List.length l' = List.length l).
  { rewrite Heq, length_app in Hlen. simpl in Hlen. lia. }
  assert (Hz : nth (List.length l) (Np.stride_map f n (l ++ [e])) d = z).
  { rewrite Heq, <- Hl'. apply nth_middle. }
  rewrite nth_stride_map in Hz;
    [| exact Hn | rewrite length_app; simpl; lia].
  rewrite Hmod, nth_middle in Hz. simpl in Hz. now symmetry.
Qed.

(** The length of the array is fuel enough for [pairwise_sum_rec]: more
    fuel gives the same sum. *)
Lemma pairwise_sum_fuel :
  forall (f1 f2 : nat) (a : list float),
    (List.length a <= f1)%nat -> (List.length a <= f2)%nat ->
    Np.pairwise_sum_rec f1 a = Np.pairwise_sum_rec f2 a.
Proof.
  induction f1 as [| f1 IH]; intros f2 a H1 H2.
  - destruct a; [| simpl in H1; lia]. destruct f2; reflexivity.
  - destruct f2 as [| f2]; [destruct a; [reflexivity | simpl in H2; lia] |].
    cbn beta iota delta [Np.pairwise_sum_rec]. fold Np.pairwise_sum_rec.
    cbv zeta.
    destruct (Nat.ltb (List.length a) 8); [reflexivity |].
    destruct (Nat.leb (List.length a) 128) eqn:E; [reflexivity |].
    apply Nat.leb_gt in E.
    pose proof (Nat.div_mod_eq (List.length a) 2) as Hd.
    pose proof (Nat.mod_upper_bound (List.length a) 2) as Hm.
    pose proof (Nat.mod_upper_bound (List.length a / 2) 8) as Hm8.
    f_equal; apply IH; rewrite ?length_firstn, ?length_skipn; lia.
Qed.

(** ** Spectrum.linefit *)

Section Spectrum_linefit.

Variable constraint : Type.
Variable ext : onedspec.Externals constraint.

Import onedspec.

Ltac run := unfold bind, ret, raise, get, modify, lift, getattr, setattr,
                   set_copts, set_p0, log; simpl.

(** Opens the state and the object, so that attribute reads compute. *)
Ltac open_heap h :=
  let o := fresh "o" in
  destruct h as [o ? ? ?]; destruct o; simpl in *; subst.

(** Splits on every attribute read, test and fallible step of [prepare]. *)
Ltac prepare_cases :=
  repeat match goal with
    | |- context [match ?a with Some _ => _ | None => _ end] =>
        is_var a; destruct a; simpl
    | |- context [if mostly_flagged ?l then _ else _] =>
        destruct (mostly_flagged l) eqn:?; simpl
    | |- context [continuum ext ?a ?b ?c] =>
        destruct (continuum ext a b c) eqn:?; simpl
    | |- context [Np.broadcast2 ?f ?a ?b] =>
        destruct (Np.broadcast2 f a b) eqn:?; simpl
    | |- context [Np.mask_select ?m ?a] =>
        destruct (Np.mask_select m a) eqn:?; simpl
    end.

(** C2.  More than 80% of the pixels flagged: [Spectrum.linefit] stops at
    line 201 before any call of the continuum estimator or of the
    minimizer and stores status 98; but it returns [None], not the vector
    of NaN built at line 167, and [em_model] keeps whatever it held. *)
Theorem linefit_mostly_flagged :
  forall function fitting_window constraints bounds inst_disp min_method
         minopts weights h fl,
    function = "gaussian"%string \/ function = "gauss_hermite"%string ->
    match fitting_window with
    | None => data (self h)
    | Some _ => wl (self h)
    end <> None ->
    flags (self h) = Some fl ->
    mostly_flagged fl = true ->
    let out := linefit constraint ext function fitting_window constraints
                 bounds inst_disp min_method minopts weights h in
    fst out = inr None /\
    fit_status (self (snd out)) = Some 98%Z /\
    em_model (self (snd out)) = em_model (self h) /\
    trace (snd out) = trace h /\
    p0 (snd out) = p0 h.
Proof.
  intros function fitting_window constraints bounds inst_disp min_method
         minopts weights h fl Hf Hw Hfl Hmost.
  open_heap h.
  unfold linefit, prepare, select_profile, window.
  destruct Hf as [-> | ->]; destruct fitting_window as [[lo hi]|]; run.
  all: match type of Hw with
       | ?a <> None => destruct a; [clear Hw | congruence]
       end.
  all: simpl; rewrite Hmost; simpl.
  all: repeat split; reflexivity.
Qed.

(** Every outcome of [pixels]: nothing of the caller or of the stored
    fit is touched, the only call is one call of the continuum estimator,
    made when no continuum is stored, and the local variables handed over
    are the selections of the valid pixels. *)
Lemma pixels_inv :
  forall n npc f cl fw weights h r h1,
    pixels constraint ext n npc f cl fw weights h = (r, h1) ->
    p0 h1 = p0 h /\
    copts h1 = copts h /\
    em_model (self h1) = em_model (self h) /\
    fit_status (self h1) = fit_status (self h) /\
    (trace h1 = trace h \/
     (cont (self h) = None /\
      exists a b d, trace h1 = trace h ++ [CallContinuum a b d])) /\
    forall q',
      r = inr q' ->
      exists q,
        q' = Some q /\
        npars q = n /\ npars_pc q = npc /\ fit_func_ q = f /\ copts_ q = cl /\
        (exists fl valid,
            flags (self h) = Some fl /\
            Np.broadcast2 andb (map negb fl) fw = inr valid /\
            (exists rw, restwl (self h) = Some rw /\
                        Np.mask_select valid rw = inr (wl_ q)) /\
            (exists d, data (self h) = Some d /\
                       Np.mask_select valid d = inr (data_ q)) /\
            (exists var, variance (self h) = Some var /\
                         Np.mask_select valid var = inr (v_ q))) /\
        (cont (self h) = Some (cont_ q) \/
         (cont (self h) = None /\
          continuum ext (wl_ q) (data_ q) cl = inr (cont_ q))) /\
        Np.broadcast2 PrimFloat.sub (data_ q) (cont_ q) = inr (s_ q) /\
        w_ q = match weights with
               | None => Np.ones_like (data_ q)
               | Some w => w
               end /\
        fitcont (self h1) = Some (cont_ q) /\
        fitwl (self h1) = Some (wl_ q) /\
        match cont (self h) with
        | Some _ => trace h1 = trace h
        | None => trace h1 = trace h ++ [CallContinuum (wl_ q) (data_ q) cl]
        end.
Proof.
  intros n npc f cl fw weights h r h1.
  open_heap h. unfold pixels. run. prepare_cases.
  all: intros H; injection H as <- <-; simpl.
  all: do 4 (split; [reflexivity |]).
  all: split; [first [now left | right; split; [reflexivity |]; eauto] |].
  all: intros q' Hq; try discriminate Hq; injection Hq as <-.
  all: eexists; split; [reflexivity |]; simpl.
  all: do 4 (split; [reflexivity |]).
  all: split;
    [do 2 eexists; split; [reflexivity |]; split; [eassumption |];
     repeat split; eexists; split; try reflexivity; eassumption |].
  all: split; [first [now left | right; split; [reflexivity | eassumption]] |].
  all: split; [eassumption |].
  all: repeat split; reflexivity.
Qed.

(** Every outcome of [prepare]: the caller's [p0] and the stored solution
    are untouched, the only status it assigns is 98 (with the bare
    [return]), the only call it makes is one call of the continuum
    estimator, made when no continuum is stored, and the local variables
    it hands over are those of lines 182-231. *)
Lemma prepare_inv :
  forall function fitting_window weights h r h1,
    prepare constraint ext function fitting_window weights h = (r, h1) ->
    p0 h1 = p0 h /\
    em_model (self h1) = em_model (self h) /\
    (fit_status (self h1) = fit_status (self h) \/
     (r = inr None /\ fit_status (self h1) = Some 98%Z)) /\
    (trace h1 = trace h \/
     (cont (self h) = None /\
      exists a b d, trace h1 = trace h ++ [CallContinuum a b d])) /\
    forall q,
      r = inr (Some q) ->
      prepared_from constraint ext fitting_window weights h q /\
      fit_status (self h1) = fit_status (self h) /\
      copts h1 = option_map (dict_set "returns" (PStr "function")) (copts h) /\
      npars q = Np.len (p0 h) /\
      (npars_pc q = 3%nat \/ npars_pc q = 5%nat) /\
      fitcont (self h1) = Some (cont_ q) /\
      fitwl (self h1) = Some (wl_ q) /\
      match cont (self h) with
      | Some _ => trace h1 = trace h
      | None =>
          trace h1 = trace h ++ [CallContinuum (wl_ q) (data_ q) (copts_ q)]
      end.
Proof.
  intros function fitting_window weights h r h1.
  open_heap h. unfold prepare, select_profile, window.
  destruct (String.eqb function "gaussian");
    [| destruct (String.eqb function "gauss_hermite")];
    destruct fitting_window as [[lo hi]|]; run.
  all: repeat match goal with
         | |- context [match ?a with Some _ => _ | None => _ end] =>
             is_var a; destruct a; simpl
         | |- context [if mostly_flagged ?l then _ else _] =>
             destruct (mostly_flagged l) eqn:?; simpl
         end.
  all: try (intros H; injection H as <- <-; simpl;
            split; [reflexivity |]; split; [reflexivity |];
            split; [first [now left | now right] |];
            split; [now left |]; intros q Hq; discriminate Hq).
  all: intros H; apply pixels_inv in H; simpl in H.
  all: destruct H as (Hp0 & Hco & Hem & Hst & Htr & Hq).
  all: split; [exact Hp0 |]; split; [exact Hem |].
  all: split; [now left |]; split; [exact Htr |].
  all: intros q ->.
  all: destruct (Hq (Some q) eq_refl)
         as (q0 & Heq & Hn & Hpc & _ & Hcl
             & (xfl & xvalid & Hfl & Hvp & (xrw & Hrw & Hwl)
                & (xd & Hd & Hda) & (xvar & Hvar & Hv))
             & Hc & Hs & Hw & Hfc & Hfw & Htq).
  all: injection Heq as <-.
  all: repeat match goal with
         | H : Some _ = Some _ |- _ => injection H as <-
         | H : None = Some _ |- _ => discriminate H
         end.
  all: subst.
  all: unfold prepared_from, valid_part, valid_pixels, window_mask; simpl.
  all: rewrite ?Hvp; simpl; rewrite ?Hwl, ?Hda, ?Hv; simpl.
  all: try (simpl in Htq); rewrite ?Hcl; repeat split; auto.
  all: destruct Hc as [Hc | [Hc Hc']];
    [now left | first [discriminate Hc | right; split; assumption]].
Qed.
(** What [prepare] leaves behind when it hands over to the scaling: the
    status, the stored solution and [p0] are untouched, [copts] has gained
    the key [returns], and at most the continuum estimator was called. *)
Lemma prepare_ready :
  forall function fitting_window weights h q h1,
    prepare constraint ext function fitting_window weights h
    = (inr (Some q), h1) ->
    fit_status (self h1) = fit_status (self h) /\
    em_model (self h1) = em_model (self h) /\
    p0 h1 = p0 h /\
    copts h1 = option_map (dict_set "returns" (PStr "function")) (copts h) /\
    npars q = Np.len (p0 h) /\
    (npars_pc q = 3%nat \/ npars_pc q = 5%nat) /\
    (trace h1 = trace h \/
     trace h1 = trace h ++ [CallContinuum (wl_ q) (data_ q) (copts_ q)]).
Proof.
  intros function fitting_window weights h q h1 Hprep.
  destruct (prepare_inv _ _ _ _ _ _ Hprep) as (Hp0 & Hem & _ & _ & Hq).
  destruct (Hq q eq_refl) as (_ & Hst & Hco & Hn & Hpc & _ & _ & Htr).
  repeat split; auto.
  destruct (cont (self h)); auto.
Qed.

(** Whatever its outcome, [prepare] does not call the minimizer, does not
    assign [em_model], and assigns no status other than 98. *)
Lemma prepare_frame :
  forall function fitting_window weights h,
    let out := prepare constraint ext function fitting_window weights h in
    minimize_calls (trace (snd out)) = minimize_calls (trace h) /\
    em_model (self (snd out)) = em_model (self h) /\
    (fit_status (self (snd out)) = fit_status (self h) \/
     fit_status (self (snd out)) = Some 98%Z).
Proof.
  intros function fitting_window weights h. cbv zeta.
  destruct (prepare constraint ext function fitting_window weights h)
    as [r h1] eqn:Hprep. cbn [snd].
  destruct (prepare_inv _ _ _ _ _ _ Hprep) as (_ & Hem & Hst & Htr & _).
  split; [| split; [exact Hem | destruct Hst as [Hst | [_ Hst]]; auto]].
  destruct Htr as [-> | (_ & a & b & d & ->)]; [reflexivity |].
  unfold minimize_calls. rewrite filter_app. simpl. now rewrite app_nil_r.
Qed.

(** C3.  Non-positive scale factor: [Spectrum.linefit] returns at line
    241 without calling the minimizer; line 240 assigns 97 to a local
    variable, so the status of the spectrum is not 97 but whatever it was
    before the call, the value returned is [None] and [em_model] is not
    assigned. *)
Theorem linefit_nonpositive_scale :
  forall function fitting_window constraints bounds inst_disp min_method
         minopts weights h q h1,
    prepare constraint ext function fitting_window weights h
    = (inr (Some q), h1) ->
    (Np.mean (s_ q) <=? 0)%float = true ->
    let out := linefit constraint ext function fitting_window constraints
                 bounds inst_disp min_method minopts weights h in
    fst out = inr None /\
    fit_status (self (snd out)) = fit_status (self h) /\
    em_model (self (snd out)) = em_model (self h) /\
    minimize_calls (trace (snd out)) = minimize_calls (trace h).
Proof.
  intros function fitting_window constraints bounds inst_disp min_method
         minopts weights h q h1 Hprep Hsf.
  destruct (prepare_ready _ _ _ _ _ _ Hprep)
    as (Hst & Hem & _ & _ & _ & _ & Htr).
  unfold linefit, bind. rewrite Hprep.
  unfold scale_and_fit. rewrite Hsf. simpl.
  repeat split; auto.
  destruct Htr as [-> | ->]; [reflexivity |].
  unfold minimize_calls. rewrite filter_app. simpl. now rewrite app_nil_r.
Qed.

(** The steps of [scale_and_fit] after the call of [minimize]. *)
Ltac after_minimize :=
  repeat match goal with
    | |- context [Np.broadcast2 ?f ?a ?b] =>
        destruct (Np.broadcast2 f a b) eqn:?; simpl
    end.

(** C4.  After a successful call the last entry of the solution is not
    [rms(x) ** 2 / nu]: line 265 takes [res(x)], which is the square root
    [rms(x)] itself, and the slice of line 271, meant for the amplitudes,
    also reaches the last entry when the optimizer returns whole blocks of
    parameters.  The entry is [rms(x) / nu * scale_factor]. *)
Theorem linefit_trailing_element :
  forall function fitting_window constraints bounds inst_disp min_method
         minopts weights h sol,
    fst (linefit constraint ext function fitting_window constraints bounds
           inst_disp min_method minopts weights h) = inr (Some sol) ->
    exists q wv r,
      minimize ext (res constraint ext (fit_func_ q) wv) (work_x0 wv)
        min_method (work_bounds wv) constraints minopts = inr r /\
      work_s wv = map (fun e => e / Np.mean (s_ q))%float (s_ q) /\
      sol = Np.stride_map (fun e => e * Np.mean (s_ q))%float (npars_pc q)
              (x r ++ [(res constraint ext (fit_func_ q) wv (x r)
                        / nu (List.length (work_s wv)) (npars q)
                             (List.length constraints) inst_disp)%float]) /\
      ((List.length (x r) mod npars_pc q = 0)%nat ->
       last sol nan
       = (res constraint ext (fit_func_ q) wv (x r)
          / nu (List.length (work_s wv)) (npars q)
               (List.length constraints) inst_disp
          * Np.mean (s_ q))%float).
Proof.
  intros function fitting_window constraints bounds inst_disp min_method
         minopts weights h sol.
  unfold linefit, bind.
  destruct (prepare constraint ext function fitting_window weights h)
    as [[e | [q |]] h1] eqn:Hprep; simpl; try discriminate.
  destruct (prepare_ready _ _ _ _ _ _ Hprep)
    as (_ & _ & _ & _ & _ & Hpc & _).
  unfold scale_and_fit.
  destruct (Np.mean (s_ q) <=? 0)%float; simpl; [discriminate |].
  run.
  destruct bounds as [b |]; simpl; [| discriminate].
  match goal with
  | |- context [minimize ext ?f ?a ?m ?sb ?c ?o] =>
      destruct (minimize ext f a m sb c o) as [e | r] eqn:Hmin
  end; simpl; [discriminate |].
  after_minimize; try discriminate.
  intros H. injection H as <-.
  eexists q, _, r. split; [exact Hmin |]. split; [reflexivity |].
  split; [reflexivity |].
  intros Hmod.
  rewrite last_stride_map;
    [reflexivity | destruct Hpc as [-> | ->]; lia | exact Hmod].
Qed.


(** C8.  A call that gets as far as the scaling changes two objects of
    the caller: line 245 divides the first entry of every block of [p0]
    in place, and line 193 writes the key [returns] into [copts]; this
    holds whether the minimizer then succeeds, fails, or is never
    reached. *)
Theorem linefit_changes_arguments :
  forall function fitting_window constraints bounds inst_disp min_method
         minopts weights h q h1,
    prepare constraint ext function fitting_window weights h
    = (inr (Some q), h1) ->
    (Np.mean (s_ q) <=? 0)%float = false ->
    let out := linefit constraint ext function fitting_window constraints
                 bounds inst_disp min_method minopts weights h in
    p0 (snd out) = Np.stride_div (Np.mean (s_ q)) (npars_pc q) (p0 h) /\
    copts (snd out)
    = option_map (dict_set "returns" (PStr "function")) (copts h).
Proof.
  intros function fitting_window constraints bounds inst_disp min_method
         minopts weights h q h1 Hprep Hsf out.
  destruct (prepare_ready _ _ _ _ _ _ Hprep)
    as (_ & _ & Hp0 & Hco & _ & _ & _).
  subst out. unfold linefit, bind. rewrite Hprep.
  unfold scale_and_fit. rewrite Hsf. run.
  destruct bounds as [b |]; simpl; [| now rewrite Hp0, Hco].
  match goal with
  | |- context [minimize ext ?f ?a ?m ?sb ?c ?o] =>
      destruct (minimize ext f a m sb c o) as [e | r]
  end; simpl; after_minimize; now rewrite Hp0, Hco.
Qed.

(** C9.  Without bounds ([bounds=None], the default) no call returns a
    solution: it raises, or it returns [None] from one of the two early
    exits; past them [scale_bounds(None, ...)] raises [TypeError] at line
    246, before [minimize] is called.  In particular the status cannot
    become 0 and no parameter is recovered. *)
Theorem linefit_without_bounds :
  forall function fitting_window constraints inst_disp min_method minopts
         weights h,
    let out := linefit constraint ext function fitting_window constraints
                 None inst_disp min_method minopts weights h in
    ((exists e, fst out = inl e) \/ fst out = inr None) /\
    minimize_calls (trace (snd out)) = minimize_calls (trace h) /\
    em_model (self (snd out)) = em_model (self h) /\
    (fit_status (self (snd out)) = fit_status (self h) \/
     fit_status (self (snd out)) = Some 98%Z).
Proof.
  intros function fitting_window constraints inst_disp min_method minopts
         weights h.
  destruct (prepare_frame function fitting_window weights h)
    as (Htr & Hem & Hst).
  unfold linefit, bind. cbv zeta.
  destruct (prepare constraint ext function fitting_window weights h)
    as [[e | [q |]] h1]; simpl in *.
  - split; [left; now exists e | auto].
  - unfold scale_and_fit.
    destruct (Np.mean (s_ q) <=? 0)%float; run.
    + split; [now right | auto].
    + split; [left; now exists TypeError | auto].
  - split; [now right | auto].
Qed.

End Spectrum_linefit.

(** ** Cube.linefit *)

Section Cube_linefit.

Variable constraint : Type.
Variable ext : onedspec.Externals constraint.
Variable bound_updater :
  Np.ndarray -> float -> option (list onedspec.bound) ->
  option (list onedspec.bound).

Import datacube.

(** The first coordinate visited: the refit block is skipped whatever
    [refit] is, and the body raises before line 984, so no array of the
    run is written and [is_first_spec] is still true. *)
Lemma visit_first_raises :
  forall cube npars update_bounds bound_range refit_radius
         original_bounds h f,
    is_first_spec constraint f = true ->
    exists e f',
      (forall refit,
         visit constraint ext bound_updater cube npars refit update_bounds
           bound_range refit_radius original_bounds h f = (inl e, f')) /\
      fit_status constraint f' = fit_status constraint f /\
      sol constraint f' = sol constraint f /\
      is_first_spec constraint f' = true.
Proof.
  intros cube npars update_bounds bound_range refit_radius
         original_bounds h f Hfirst.
  assert (Hskip :
            forall refit,
              visit constraint ext bound_updater cube npars refit
                update_bounds bound_range refit_radius original_bounds h f
              = visit constraint ext bound_updater cube npars false
                  update_bounds bound_range refit_radius original_bounds h f).
  { destruct f. simpl in Hfirst. subst. intros [|]; reflexivity. }
  cut (exists e f',
          visit constraint ext bound_updater cube npars false
            update_bounds bound_range refit_radius original_bounds h f
          = (inl e, f') /\
          fit_status constraint f' = fit_status constraint f /\
          sol constraint f' = sol constraint f /\
          is_first_spec constraint f' = true).
  { intros (e & f' & Hv & Hrest). exists e, f'.
    split; [intros refit; now rewrite Hskip | exact Hrest]. }
  clear Hskip.
  destruct f as [fs so fc fp rs eq fw fr first a kw sp ev].
  simpl in Hfirst. subst first.
  unfold visit, bind, get, modify, ret, raise. simpl.
  unfold call_linefit. simpl.
  destruct (kw_feature_wl kw) eqn:Hkw.
  - do 2 eexists. split; [reflexivity | repeat split].
  - match goal with
    | |- context [onedspec.linefit ?c ?e ?a1 ?a2 ?a3 ?a4 ?a5 ?a6 ?a7 ?a8 ?hh] =>
        destruct (onedspec.linefit c e a1 a2 a3 a4 a5 a6 a7 a8 hh)
          as [[e' | v] h']
    end; simpl.
    + do 2 eexists. split; [reflexivity | repeat split].
    + rewrite Hkw. simpl.
      do 2 eexists. split; [reflexivity | repeat split].
Qed.

(** C1.  No cube fit completes: on the first coordinate
    [Spectrum.linefit] either rejects the keyword [feature_wl] or returns
    and line 958 fails to find it, so the run stops with an exception
    before any output is stored.  The statuses are still -1 and the
    solutions still zero everywhere: a spaxel whose pixels are all flagged
    gets neither status 98 nor a solution of NaN, and the other spaxels
    get nothing. *)
Theorem cube_linefit_raises :
  forall cube p0_arg refit update_bounds bound_range refit_radius kw xy,
    let out := linefit constraint ext bound_updater cube p0_arg refit
                 update_bounds bound_range refit_radius kw xy
                 (enter constraint cube p0_arg kw) in
    (exists e, fst out = inl e) /\
    (forall c, fit_status constraint (snd out) c = (-1)%Z) /\
    (forall c, sol constraint (snd out) c = repeat 0%float (Np.len p0_arg + 1)).
Proof.
  intros cube p0_arg refit update_bounds bound_range refit_radius kw xy.
  cbv zeta. unfold linefit.
  destruct xy as [| first rest].
  - unfold raise. simpl. split; [now exists IndexError | split; reflexivity].
  - unfold bind, get, modify, ret.
    cbn [List.length Nat.eqb for_each]. unfold bind.
    match goal with
    | |- context [visit _ _ _ ?cu ?n ?r ?u ?br ?rr ?ob ?hh ?ff] =>
        destruct (visit_first_raises cu n u br rr ob hh ff eq_refl)
          as (e & f' & Hv & Hfs & Hso & _)
    end.
    rewrite Hv. simpl.
    split; [now exists e |].
    rewrite Hfs, Hso. simpl. split; reflexivity.
Qed.

(** The other two outcomes of the refit block: no converged spaxel within
    the radius leaves the guess as it is, and otherwise (the test of line
    947 failing) the guess is the mean over the matches as soon as one of
    their entries is not zero. *)
Lemma refit_no_match :
  forall sh npars sol fit_status h refit_radius p0,
    nearsol_T sh sol fit_status h refit_radius = [] ->
    refit_guess sh npars sol fit_status h refit_radius p0 = p0.
Proof.
  intros sh npars sol fit_status h refit_radius p0 Hrows.
  unfold refit_guess. rewrite Hrows. simpl.
  now rewrite andb_false_r.
Qed.

Lemma refit_average :
  forall sh npars sol fit_status h refit_radius p0,
    let rows := nearsol_T sh sol fit_status h refit_radius in
    Nat.eqb npars 5 && Nat.eqb (List.length rows) 1 = false ->
    any rows = true ->
    refit_guess sh npars sol fit_status h refit_radius p0
    = Np.Arr1 (average npars rows).
Proof.
  intros sh npars sol fit_status h refit_radius p0 rows Hshape Hany.
  unfold refit_guess. fold rows. now rewrite Hshape, Hany.
Qed.

(** The test of line 947 on its own: with five parameters and exactly
    one converged spaxel within the radius the guess is
    [nearsol.transpose()], the array with the single row [v]. *)
Lemma refit_single_match_five :
  forall sh sol fit_status h refit_radius p0 v,
    nearsol_T sh sol fit_status h refit_radius = [v] ->
    let guess := refit_guess sh 5 sol fit_status h refit_radius p0 in
    guess = Np.Arr2 [v] /\
    Np.len guess = 1%nat /\
    forall c, Np.stride_div c 5 guess
              = Np.Arr2 [map (fun e => e / c)%float v].
Proof.
  intros sh sol fit_status h refit_radius p0 v Hrows.
  cbv zeta. unfold refit_guess. rewrite Hrows. simpl.
  repeat split.
Qed.


End Cube_linefit.

(** ** Cube._spiral *)

Section Spiral_permutation.

Variable A : datacube.Arith.

Import datacube.

Lemma insert_perm :
  forall e l, Permutation (e :: l) (insert A e l).
Proof.
  intros e l. induction l as [| h t IH]; simpl; [apply Permutation_refl |].
  destruct (key_ltb A (fst h) (fst e)).
  - eapply perm_trans; [apply perm_swap | apply perm_skip, IH].
  - apply Permutation_refl.
Qed.

Lemma sort_perm :
  forall l, Permutation l (sort A l).
Proof.
  induction l as [| h t IH]; simpl; [apply perm_nil |].
  eapply perm_trans; [apply perm_skip, IH | apply insert_perm].
Qed.

Lemma map_snd_combine :
  forall (U V : Type) (a : list U) (b : list V),
    List.length a = List.length b -> map snd (combine a b) = b.
Proof.
  intros U V a. induction a as [| u a IH]; intros [| v b] H; simpl in *;
    try discriminate; [reflexivity |].
  f_equal. apply IH. now injection H.
Qed.

(** [argsort] returns the indices 0 .. n-1 in some order. *)
Lemma argsort_perm :
  forall b, Permutation (seq 0 (List.length b)) (argsort A b).
Proof.
  intros b. unfold argsort.
  rewrite <- (map_snd_combine _ _ b (seq 0 (List.length b))) at 1
    by now rewrite length_seq.
  apply Permutation_map, sort_perm.
Qed.

Lemma map_nth_seq :
  forall (U : Type) (d : U) (l : list U),
    map (fun i => nth i l d) (seq 0 (List.length l)) = l.
Proof.
  intros U d l. induction l as [| u l IH]; [reflexivity |].
  simpl. f_equal. rewrite <- seq_shift, map_map. exact IH.
Qed.

(** Indexing the rows and the columns with the same index array indexes
    the points. *)
Lemma take_points :
  forall (pts : list coord) (s : list nat),
    combine (take (map fst pts) s) (take (map snd pts) s)
    = map (fun i => nth i pts (0%Z, 0%Z)) s.
Proof.
  intros pts s. unfold take.
  induction s as [| i s IH]; [reflexivity |].
  simpl. rewrite IH.
  rewrite (map_nth fst pts (0%Z, 0%Z) i : nth i (map fst pts) 0%Z = _).
  rewrite (map_nth snd pts (0%Z, 0%Z) i : nth i (map snd pts) 0%Z = _).
  now rewrite <- surjective_pairing.
Qed.

Lemma max_nonempty :
  forall a : list Z, a <> [] -> exists m, max a = inr m.
Proof.
  intros [| h t] H; [congruence | now exists (fold_left Z.max t h)].
Qed.

(** The centre is defined as soon as one is given or there is a point. *)
Lemma center_defined :
  forall (pts : list coord) sc,
    (sc = None -> pts <> []) ->
    exists c, center A (map snd pts) (map fst pts) sc = inr c.
Proof.
  intros pts [c |] H; simpl; [now exists c |].
  assert (Hne : pts <> []) by now apply H.
  destruct pts as [| p t]; [congruence |]. simpl. eauto.
Qed.

(** The points taken at the indices of [argsort] are the points in
    another order. *)
Lemma argsort_points_perm :
  forall (c : num A * num A) (pts : list coord),
    Permutation pts
      (map (fun i => nth i pts (0%Z, 0%Z))
           (argsort A (map (fun p => (radius A c p, angle A c p)) pts))).
Proof.
  intros c pts.
  set (b := map (fun p => (radius A c p, angle A c p)) pts).
  assert (Hlen : List.length b = List.length pts)
    by (subst b; apply length_map).
  rewrite <- (map_nth_seq _ (0%Z, 0%Z) pts) at 1.
  apply Permutation_map.
  exact (eq_ind _ (fun n => Permutation (seq 0 n) (argsort A b))
           (argsort_perm b) _ Hlen).
Qed.

(** C10.  Whatever the arithmetic, and whatever the centre, [_spiral]
    returns the coordinates it traverses in another order: the result is
    a permutation of them, of the same length.  (With no centre given the
    collection must not be empty, since the default centre takes the
    maximum of its rows and columns.) *)
Theorem spiral_permutation :
  forall binned spec_indices xy sc,
    (sc = None -> traversed binned spec_indices xy <> []) ->
    exists out,
      _spiral A binned spec_indices xy sc = inr out /\
      Permutation (traversed binned spec_indices xy) out /\
      List.length out = List.length (traversed binned spec_indices xy).
Proof.
  intros binned spec_indices xy sc H.
  unfold _spiral.
  set (pts := traversed binned spec_indices xy) in *.
  destruct (center_defined pts sc H) as (c & ->).
  eexists. split; [reflexivity |].
  rewrite take_points.
  set (b := map (fun p => (radius A c p, angle A c p)) pts).
  assert (Hlen : List.length b = List.length pts)
    by (subst b; apply length_map).
  assert (Hperm : Permutation pts
                    (map (fun i => nth i pts (0%Z, 0%Z)) (argsort A b))).
  { rewrite <- (map_nth_seq _ (0%Z, 0%Z) pts) at 1.
    apply Permutation_map.
    exact (eq_ind _ (fun n => Permutation (seq 0 n) (argsort A b))
             (argsort_perm b) _ Hlen). }
  split; [exact Hperm |].
  symmetry. now apply Permutation_length.
Qed.

End Spiral_permutation.

(** *** The default centre *)

Lemma fold_max_spec :
  forall (t : list Z) (h : Z),
    (fold_left Z.max t h = h \/ In (fold_left Z.max t h) t) /\
    (h <= fold_left Z.max t h)%Z /\
    Forall (fun z => (z <= fold_left Z.max t h)%Z) t.
Proof.
  induction t as [| a t IH]; intros h; simpl.
  - split; [now left | split; [lia | constructor]].
  - destruct (IH (Z.max h a)) as ([Heq | Hin] & Hle & Hall).
    + split; [| split; [lia | constructor; [lia | exact Hall]]].
      rewrite Heq. destruct (Z.max_spec h a) as [[_ ->] | [_ ->]]; auto.
    + split; [auto | split; [lia | constructor; [lia | exact Hall]]].
Qed.

Lemma max_is_max :
  forall (a : list Z) (m : Z),
    datacube.max a = inr m -> datacube.is_max m a.
Proof.
  intros [| h t] m H; simpl in H; [discriminate |].
  injection H as <-.
  destruct (fold_max_spec t h) as (Hin & Hle & Hall).
  split.
  - simpl. destruct Hin as [-> | Hin]; auto.
  - constructor; assumption.
Qed.

(** *** The order of the result *)

Lemma StronglySorted_map_in :
  forall (U V : Type) (le : U -> U -> Prop) (le' : V -> V -> Prop)
         (P : U -> Prop) (g : U -> V) (l : list U),
    (forall a b, P a -> P b -> le a b -> le' (g a) (g b)) ->
    Forall P l ->
    StronglySorted le l ->
    StronglySorted le' (map g l).
Proof.
  intros U V le le' P g l Hg HP Hs.
  induction Hs as [| h t Hs IH Hall]; simpl; [constructor |].
  inversion HP as [| ? ? Ph Pt]; subst.
  constructor; [now apply IH |].
  apply Forall_map.
  rewrite Forall_forall in *. intros a Ha.
  apply Hg; auto.
Qed.

(** Every entry pairs an index with the key of the point at that index. *)
Lemma entries_keyed :
  forall (V : Type) (f : datacube.coord -> V) (d : datacube.coord)
         (pts : list datacube.coord) (start : nat),
    Forall (fun ki => (start <= snd ki)%nat /\
                      fst ki = f (nth (snd ki - start) pts d))
           (combine (map f pts) (seq start (List.length pts))).
Proof.
  intros V f d pts. induction pts as [| p t IH]; intros start; simpl.
  - constructor.
  - constructor.
    + simpl. split; [lia |]. now rewrite Nat.sub_diag.
    + apply Forall_impl with (2 := IH (S start)).
      intros [k i]. simpl. intros [Hle ->]. split; [lia |].
      replace (i - start)%nat with (S (i - S start)) by lia. reflexivity.
Qed.

(** The sort leaves its entries in order as soon as the order of one
    field is asymmetric and its negation transitive. *)
Section Spiral_sorted.

Variable A : datacube.Arith.

Import datacube.

Hypothesis sort_ltb_asym :
  forall a b, sort_ltb A a b = true -> sort_ltb A b a = false.

Hypothesis sort_ltb_le_trans :
  forall a b c,
    sort_ltb A b a = false -> sort_ltb A c b = false ->
    sort_ltb A c a = false.

Lemma key_ltb_asym :
  forall a b : key A, key_ltb A a b = true -> key_ltb A b a = false.
Proof.
  intros [r1 t1] [r2 t2]. unfold key_ltb. simpl.
  destruct (sort_ltb A r1 r2) eqn:H12.
  - intros _. now rewrite (sort_ltb_asym _ _ H12).
  - destruct (sort_ltb A r2 r1) eqn:H21; [discriminate |].
    intros Ht. now apply sort_ltb_asym.
Qed.

Lemma key_le_trans :
  forall a b c : key A,
    key_ltb A b a = false -> key_ltb A c b = false ->
    key_ltb A c a = false.
Proof.
  intros [r1 t1] [r2 t2] [r3 t3]. unfold key_ltb. simpl.
  destruct (sort_ltb A r2 r1) eqn:H21; [discriminate |].
  destruct (sort_ltb A r3 r2) eqn:H32; [discriminate |].
  rewrite (sort_ltb_le_trans _ _ _ H21 H32).
  destruct (sort_ltb A r1 r3) eqn:H13; [reflexivity |].
  destruct (sort_ltb A r1 r2) eqn:H12.
  - intros _ _. rewrite (sort_ltb_le_trans _ _ _ H32 H13) in H12.
    discriminate H12.
  - destruct (sort_ltb A r2 r3) eqn:H23.
    + intros _ _. rewrite (sort_ltb_le_trans _ _ _ H13 H21) in H23.
      discriminate H23.
    + apply sort_ltb_le_trans.
Qed.

Lemma insert_sorted :
  forall e l,
    StronglySorted (fun a b => key_ltb A (fst b) (fst a) = false) l ->
    StronglySorted (fun a b => key_ltb A (fst b) (fst a) = false)
      (insert A e l).
Proof.
  intros e l Hs. induction Hs as [| h t Hs IH Hall]; simpl.
  - constructor; [constructor | constructor].
  - destruct (key_ltb A (fst h) (fst e)) eqn:Hcmp.
    + constructor; [exact IH |].
      apply (Permutation_Forall (insert_perm A e t)).
      constructor; [now apply key_ltb_asym | exact Hall].
    + constructor; [now constructor |].
      constructor; [exact Hcmp |].
      apply Forall_impl with (2 := Hall).
      intros a Ha. eapply key_le_trans; eassumption.
Qed.

Lemma sort_sorted :
  forall l,
    StronglySorted (fun a b => key_ltb A (fst b) (fst a) = false)
      (sort A l).
Proof.
  induction l as [| h t IH]; simpl; [constructor |].
  now apply insert_sorted.
Qed.

(** The order of two keys, by their fields. *)
Lemma key_le_fields :
  forall a b : key A,
    key_ltb A b a = false ->
    sort_ltb A (fst b) (fst a) = false /\
    (sort_ltb A (fst a) (fst b) = true \/
     sort_ltb A (snd b) (snd a) = false).
Proof.
  intros [r1 t1] [r2 t2]. unfold key_ltb. simpl.
  destruct (sort_ltb A r2 r1); [discriminate |].
  destruct (sort_ltb A r1 r2); [now auto |].
  intros H. now auto.
Qed.

Lemma spiral_sorted :
  forall (c : num A * num A) (pts : list coord),
    StronglySorted (spiral_le A c)
      (map (fun i => nth i pts (0%Z, 0%Z))
           (argsort A (map (fun p => (radius A c p, angle A c p)) pts))).
Proof.
  intros c pts. unfold argsort. rewrite map_map, length_map.
  set (f := fun p : coord => (radius A c p, angle A c p)).
  apply StronglySorted_map_in
    with (le := fun a b : key A * nat => key_ltb A (fst b) (fst a) = false)
         (P := fun ki : key A * nat =>
                 (0 <= snd ki)%nat /\
                 fst ki = f (nth (snd ki - 0) pts (0%Z, 0%Z))).
  - intros [k1 i1] [k2 i2]. simpl. intros [_ ->] [_ ->].
    rewrite !Nat.sub_0_r. intros H.
    exact (key_le_fields _ _ H).
  - apply (Permutation_Forall (sort_perm A _)).
    apply (entries_keyed _ f (0%Z, 0%Z) pts 0%nat).
  - apply sort_sorted.
Qed.

End Spiral_sorted.

(** *** The order of [float64] values under sorting *)

Ltac compare_cases :=
  repeat match goal with
    | |- context [Z.compare ?a ?b] => destruct (Z.compare_spec a b)
    | |- context [Pos.compare_cont Eq ?a ?b] =>
        change (Pos.compare_cont Eq a b) with (Pos.compare a b);
        destruct (Pos.compare_spec a b)
    end.

Lemma SFltb_asym :
  forall f1 f2, SFltb f1 f2 = true -> SFltb f2 f1 = false.
Proof.
  intros f1 f2. unfold SFltb, SFcompare.
  destruct f1 as [s1 | s1 | | s1 m1 e1], f2 as [s2 | s2 | | s2 m2 e2];
    try destruct s1; try destruct s2; try (intros; reflexivity);
    try discriminate.
  all: compare_cases; simpl; intros; subst; try reflexivity;
    try discriminate; exfalso; lia.
Qed.

Lemma SFltb_le_trans :
  forall f1 f2 f3,
    f2 <> S754_nan ->
    SFltb f2 f1 = false -> SFltb f3 f2 = false -> SFltb f3 f1 = false.
Proof.
  intros f1 f2 f3 Hn. unfold SFltb, SFcompare.
  destruct f2 as [s2 | s2 | | s2 m2 e2]; [| | congruence |];
    destruct f1 as [s1 | s1 | | s1 m1 e1], f3 as [s3 | s3 | | s3 m3 e3];
    try destruct s1; try destruct s2; try destruct s3;
    try (intros; reflexivity); try discriminate.
  all: compare_cases; simpl; intros; subst; try reflexivity;
    try discriminate; exfalso; lia.
Qed.

Lemma SFeqb_refl :
  forall f, f <> S754_nan -> SpecFloat.SFeqb f f = true.
Proof.
  intros f Hf. unfold SpecFloat.SFeqb, SpecFloat.SFcompare.
  destruct f as [s | s | | s m e]; try congruence.
  all: destruct s; rewrite ?Z.compare_refl, ?Pos.compare_cont_refl;
    reflexivity.
Qed.

Lemma SFeqb_self :
  forall f,
    SpecFloat.SFeqb f f = match f with S754_nan => false | _ => true end.
Proof.
  intros f. destruct f; try (apply SFeqb_refl; discriminate). reflexivity.
Qed.

(** NaN sorts after every number and before nothing; two numbers sort
    as [<] orders them. *)
Lemma sort_ltb_spec :
  forall x y : float,
    Np.sort_ltb x y
    = match Prim2SF x, Prim2SF y with
      | S754_nan, _ => false
      | _, S754_nan => true
      | f1, f2 => SFltb f1 f2
      end.
Proof.
  intros x y. unfold Np.sort_ltb, is_nan.
  rewrite FloatAxioms.ltb_spec, !FloatAxioms.eqb_spec.
  destruct (Prim2SF x) as [s1 | s1 | | s1 m1 e1] eqn:Hx;
    destruct (Prim2SF y) as [s2 | s2 | | s2 m2 e2] eqn:Hy;
    rewrite !SFeqb_self; cbn [negb andb]; rewrite ?orb_false_r;
    reflexivity.
Qed.

Lemma float_sort_ltb_asym :
  forall x y : float, Np.sort_ltb x y = true -> Np.sort_ltb y x = false.
Proof.
  intros x y. rewrite !sort_ltb_spec.
  destruct (Prim2SF x) as [s1 | s1 | | s1 m1 e1] eqn:Hx;
    destruct (Prim2SF y) as [s2 | s2 | | s2 m2 e2] eqn:Hy;
    try discriminate; try reflexivity; apply SFltb_asym.
Qed.

Lemma float_sort_ltb_le_trans :
  forall x y z : float,
    Np.sort_ltb y x = false -> Np.sort_ltb z y = false ->
    Np.sort_ltb z x = false.
Proof.
  intros x y z. rewrite !sort_ltb_spec.
  destruct (Prim2SF y) as [s2 | s2 | | s2 m2 e2] eqn:Hy;
    destruct (Prim2SF x) as [s1 | s1 | | s1 m1 e1] eqn:Hx;
    destruct (Prim2SF z) as [s3 | s3 | | s3 m3 e3] eqn:Hz;
    try discriminate; try reflexivity;
    apply SFltb_le_trans; discriminate.
Qed.

Section Spiral_order.

(** [np.arctan2] *)
Variable np_arctan2 : float -> float -> float.

Import datacube.

(** C6.  [_spiral] returns the coordinates it traverses in another
    order (a permutation of them): in ascending order of the radius that
    the [float64] arithmetic computes from the centre and, among
    coordinates of one computed radius, in ascending order of the
    computed angle ([arctan2], to which [2 * pi] is added when it is
    negative); NaN sorts last.  With no centre given, the centre is half
    the largest column and half the largest row, and the collection must
    not be empty. *)
Theorem spiral_order :
  forall binned spec_indices xy sc,
    (sc = None -> traversed binned spec_indices xy <> []) ->
    exists c out,
      _spiral (float_arith np_arctan2) binned spec_indices xy sc = inr out /\
      Permutation (traversed binned spec_indices xy) out /\
      (forall c0, sc = Some c0 -> c = c0) /\
      (sc = None ->
       exists mrow mcol,
         is_max mrow (map fst (traversed binned spec_indices xy)) /\
         is_max mcol (map snd (traversed binned spec_indices xy)) /\
         c = ((Np.of_Z mcol / 2)%float, (Np.of_Z mrow / 2)%float)) /\
      StronglySorted (spiral_le (float_arith np_arctan2) c) out.
Proof.
  intros binned spec_indices xy sc H.
  unfold _spiral.
  set (pts := traversed binned spec_indices xy) in *.
  destruct (center_defined (float_arith np_arctan2) pts sc H) as (c & Hc).
  rewrite Hc. exists c. eexists. split; [reflexivity |].
  rewrite take_points.
  split; [apply (argsort_points_perm (float_arith np_arctan2)) |].
  split; [| split].
  - intros c0 ->. simpl in Hc. now injection Hc.
  - intros ->. simpl in Hc.
    destruct (max (map snd pts)) as [e | mcol] eqn:Hcol; [discriminate |].
    destruct (max (map fst pts)) as [e | mrow] eqn:Hrow; [discriminate |].
    exists mrow, mcol.
    split; [now apply max_is_max |]. split; [now apply max_is_max |].
    now injection Hc.
  - apply (spiral_sorted (float_arith np_arctan2) float_sort_ltb_asym
             float_sort_ltb_le_trans c pts).
Qed.

End Spiral_order.
(** ** The properties on the sample inputs *)

Section On_samples.

Import onedspec Samples.

Local Open Scope float_scope.

(** C2 on the spectrum with every pixel flagged: the call returns [None]
    with status 98, nothing stored in [em_model] and no external call. *)
Lemma linefit_mostly_flagged_sample :
  fst (fit (Some bounds3) flagged) = inr None /\
  fit_status (self (snd (fit (Some bounds3) flagged))) = Some 98%Z /\
  em_model (self (snd (fit (Some bounds3) flagged))) = None /\
  trace (snd (fit (Some bounds3) flagged)) = [] /\
  p0 (snd (fit (Some bounds3) flagged)) = guess.
Proof.
  refine (linefit_mostly_flagged unit ext0 "gaussian" None [] (Some bounds3) 1
            "SLSQP" _ None flagged (repeat true 9) _ _ _ _).
  - left. reflexivity.
  - discriminate.
  - reflexivity.
  - vm_compute. reflexivity.
Defined.

(** C3 on the spectrum below its continuum: the scale factor is -1, the
    call returns [None] and the status is still unset. *)
Lemma linefit_nonpositive_scale_sample :
  Np.mean (s_ (prepared_of faint)) = -1 /\
  fst (fit (Some bounds3) faint) = inr None /\
  fit_status (self (snd (fit (Some bounds3) faint))) = None /\
  em_model (self (snd (fit (Some bounds3) faint))) = None /\
  minimize_calls (trace (snd (fit (Some bounds3) faint))) = 0%nat.
Proof.
  split; [vm_compute; reflexivity |].
  refine (linefit_nonpositive_scale unit ext0 "gaussian" None [] (Some bounds3)
            1 "SLSQP" _ None faint (prepared_of faint)
            (heap_after_prepare faint) _ _).
  - vm_compute. reflexivity.
  - vm_compute. reflexivity.
Defined.

(** C4 on the bright spectrum: the solution is [4, 5000, 1.8, 1.2]. *)
Lemma linefit_trailing_element_sample :
  exists q wv r,
    minimize ext0 (res unit ext0 (fit_func_ q) wv) (work_x0 wv) "SLSQP"
      (work_bounds wv) [] [("eps"%string, PNum 0x1.0624dd2f1a9fcp-10)]
    = inr r /\
    work_s wv = map (fun e => e / Np.mean (s_ q)) (s_ q) /\
    [4; 5000; 0x1.ccccccccccccdp+0; 0x1.3333333333333p+0]
    = Np.stride_map (fun e => e * Np.mean (s_ q)) (npars_pc q)
        (x r ++ [res unit ext0 (fit_func_ q) wv (x r)
                 / nu (List.length (work_s wv)) (npars q) 0 1]) /\
    ((List.length (x r) mod npars_pc q = 0)%nat ->
     last [4; 5000; 0x1.ccccccccccccdp+0; 0x1.3333333333333p+0] nan
     = res unit ext0 (fit_func_ q) wv (x r)
       / nu (List.length (work_s wv)) (npars q) 0 1
       * Np.mean (s_ q)).
Proof.
  refine (linefit_trailing_element unit ext0 "gaussian" None [] (Some bounds3)
            1 "SLSQP" _ None bright _ _).
  vm_compute. reflexivity.
Defined.

(** On the same spectrum [rms(x) ** 2 / nu] is 1.8, and the last entry of
    the solution is 1.2. *)
Example reduced_chi2_sample :
  let q := prepared_of bright in
  let wv := {| work_wl := wl_ q;
               work_s := map (fun e => e / Np.mean (s_ q)) (s_ q);
               work_w := w_ q; work_v := v_ q;
               work_x0 := Np.stride_div (Np.mean (s_ q)) 3 guess;
               work_bounds := scale_bounds bounds3 (Np.mean (s_ q)) 3 |} in
  let rms := res unit ext0 gauss wv [2; 5000; 0x1.ccccccccccccdp+0] in
  fst (fit (Some bounds3) bright)
  = inr (Some [4; 5000; 0x1.ccccccccccccdp+0; 0x1.3333333333333p+0]) /\
  rms = 3 /\
  nu 9 3 0 1 = 5 /\
  rms * rms / nu 9 3 0 1 = 0x1.ccccccccccccdp+0 /\
  rms / nu 9 3 0 1 * Np.mean (s_ q) = 0x1.3333333333333p+0.
Proof.
  vm_compute. repeat split.
Qed.

(** The mean of nine values of 0.1 is 0.1: the pairwise sum is 0.9,
    where adding the values one by one gives the [float64] below. *)
Example mean_pairwise_sample :
  Np.mean (repeat 0x1.999999999999ap-4 9) = 0x1.999999999999ap-4 /\
  Np.mean_along (repeat 0x1.999999999999ap-4 9) = 0x1.9999999999999p-4.
Proof.
  vm_compute. split; reflexivity.
Qed.



(** C8 on the bright spectrum: after the call the caller's [p0] is
    [2, 5000, 1.8] instead of [4, 5000, 1.8], and the caller's [copts] has
    one more key. *)
Lemma linefit_changes_arguments_sample :
  Np.stride_div (Np.mean (s_ (prepared_of bright))) 3 guess
  = Np.Arr1 [2; 5000; 0x1.ccccccccccccdp+0] /\
  p0 (snd (fit (Some bounds3) bright))
  = Np.stride_div (Np.mean (s_ (prepared_of bright))) 3 guess /\
  copts (snd (fit (Some bounds3) bright))
  = Some [("degr"%string, PInt 4); ("returns"%string, PStr "function")].
Proof.
  split; [vm_compute; reflexivity |].
  refine (linefit_changes_arguments unit ext0 "gaussian" None [] (Some bounds3)
            1 "SLSQP" _ None bright (prepared_of bright)
            (heap_after_prepare bright) _ _).
  - vm_compute. reflexivity.
  - vm_compute. reflexivity.
Defined.

(** The cube with one flagged spaxel: the run stops on the flagged
    spaxel with [KeyError], or with [TypeError] when [feature_wl] is
    passed; started on the clean spaxel it stops with [AttributeError]
    (the spectrum has [rest_wavelength], the fit reads [restwl]).  The
    flagged spaxel keeps status -1 and a solution of zeros. *)
Example cube_linefit_sample :
  fst (cube_fit None [(0, 0); (0, 1)]%Z) = inl KeyError /\
  fst (cube_fit (Some [5000]) [(0, 0); (0, 1)]%Z) = inl TypeError /\
  fst (cube_fit None [(0, 1); (0, 0)]%Z) = inl AttributeError /\
  datacube.fit_status unit (snd (cube_fit None [(0, 0); (0, 1)]%Z)) (0, 0)%Z
  = (-1)%Z /\
  datacube.sol unit (snd (cube_fit None [(0, 0); (0, 1)]%Z)) (0, 0)%Z
  = [0; 0; 0; 0].
Proof.
  vm_compute. repeat split.
Qed.

(** C7 on the cube of two spaxels: with [refit=True] the run on
    [(0, 1)] and then [(0, 0)] stops on [(0, 1)] with [AttributeError], as
    the run with [refit=False] does, and the guess [4, 5000, 1.8] is never
    replaced. *)
Example cube_refit_sample :
  cube_refit None [(0, 1); (0, 0)]%Z = cube_fit None [(0, 1); (0, 0)]%Z /\
  fst (cube_refit None [(0, 1); (0, 0)]%Z) = inl AttributeError /\
  datacube.is_first_spec unit (snd (cube_refit None [(0, 1); (0, 0)]%Z))
  = true /\
  datacube.p0 unit (snd (cube_refit None [(0, 1); (0, 0)]%Z)) = guess.
Proof.
  vm_compute. repeat split.
Qed.

(** The refit block on its own, had a five-parameter fit converged at
    [(0, 0)]: the guess for [(0, 1)] would be the array [[1, 2, 3, 4, 5]]
    of one row, not the vector [1, 2, 3, 4, 5]. *)
Example refit_single_match_five_sample :
  datacube.refit_guess (1%nat, 2%nat) 5 sol_one status_one (0%Z, 1%Z) 3
    (Np.Arr1 [9; 9; 9; 9; 9])
  = Np.Arr2 [[1; 2; 3; 4; 5]].
Proof.
  vm_compute. reflexivity.
Qed.

(** C10 on the four spaxels of a 2 x 2 cube, with the default centre. *)
Lemma spiral_permutation_sample :
  exists out,
    datacube._spiral (datacube.float_arith arctan2_coarse) false square []
      None = inr out /\
    Permutation square out /\
    List.length out = 4%nat.
Proof.
  refine (spiral_permutation (datacube.float_arith arctan2_coarse) false
            square [] None _).
  intros _. discriminate.
Defined.

(** C6 on the four spaxels of a 2 x 2 cube, with the default centre. *)
Lemma spiral_order_sample :
  exists c out,
    datacube._spiral (datacube.float_arith arctan2_coarse) false square []
      None = inr out /\
    Permutation square out /\
    (forall c0, @None (float * float) = Some c0 -> c = c0) /\
    (@None (float * float) = None ->
     exists mrow mcol,
       datacube.is_max mrow (map fst square) /\
       datacube.is_max mcol (map snd square) /\
       c = (Np.of_Z mcol / 2, Np.of_Z mrow / 2)) /\
    StronglySorted
      (datacube.spiral_le (datacube.float_arith arctan2_coarse) c) out.
Proof.
  refine (spiral_order arctan2_coarse false square [] None _).
  intros _. discriminate.
Defined.

(** On that square the centre is [(0.5, 0.5)], the four radii are equal
    and the angles decide. *)
Example spiral_square_sample :
  datacube._spiral (datacube.float_arith arctan2_coarse) false square []
    None
  = inr [(1, 1); (1, 0); (0, 0); (0, 1)]%Z.
Proof.
  vm_compute. reflexivity.
Qed.

(** C6 as stated fails in two ways.  About the centre [(0.7, 1.4)], as
    [float64] has it, the coordinate [(3, 7)] is nearer than [(7, 4)]:
    the squares of the two distances differ by [7 - 10 * 0.7], and the
    [float64] nearest to 0.7 is below 0.7.  The radii that the code
    computes are 6.5 for [(3, 7)] and the [float64] just below for
    [(7, 4)], so that [(7, 4)] comes first, whatever [arctan2] returns.
    And an empty list of coordinates with no centre given is not ordered
    at all: the maximum of an empty array raises [ValueError]. *)
Lemma spiral_order_rounded_radius :
  (exists x y,
      datacube.real_value (fst off_centre) = Some x /\
      datacube.real_value (snd off_centre) = Some y /\
      (datacube.euclidean_distance (x, y) (3, 7)%Z
       < datacube.euclidean_distance (x, y) (7, 4)%Z)%R) /\
  (forall arctan2,
      datacube._spiral (datacube.float_arith arctan2) false
        [(3, 7); (7, 4)]%Z [] (Some off_centre)
      = inr [(7, 4); (3, 7)]%Z) /\
  (forall arctan2,
      datacube.radius (datacube.float_arith arctan2) off_centre (3, 7)%Z
      = 0x1.ap+2 /\
      datacube.radius (datacube.float_arith arctan2) off_centre (7, 4)%Z
      = 0x1.9ffffffffffffp+2) /\
  (forall arctan2,
      datacube._spiral (datacube.float_arith arctan2) false [] [] None
      = inl ValueError).
Proof.
  split; [| split; [| split]].
  - eexists. eexists.
    split; [unfold datacube.real_value; vm_compute Prim2SF; reflexivity |].
    split; [unfold datacube.real_value; vm_compute Prim2SF; reflexivity |].
    unfold datacube.euclidean_distance. cbn [fst snd].
    apply sqrt_lt_1_alt.
    assert (E53 : powerRZ 2 (-53) = (/ 9007199254740992)%R).
    { unfold powerRZ. f_equal. rewrite pow_IZR. f_equal. }
    assert (E52 : powerRZ 2 (-52) = (/ 4503599627370496)%R).
    { unfold powerRZ. f_equal. rewrite pow_IZR. f_equal. }
    rewrite E53, E52. split; lra.
  - intros arctan2. vm_compute. reflexivity.
  - intros arctan2. vm_compute. split; reflexivity.
  - intros arctan2. reflexivity.
Qed.

End On_samples.
(** ** Spectrum.linefit: further properties *)

Section Spectrum_linefit_calls.

Import onedspec.

Variable constraint : Type.
Variable ext : Externals constraint.

Ltac run := unfold bind, ret, raise, get, modify, lift, getattr, setattr,
                   set_copts, set_p0, log; simpl.

Ltac open_heap h :=
  let o := fresh "o" in
  destruct h as [o ? ? ?]; destruct o; simpl in *; subst.

Ltac pixel_cases :=
  repeat match goal with
    | |- context [match ?a with Some _ => _ | None => _ end] =>
        is_var a; destruct a; simpl
    | |- context [continuum ext ?a ?b ?d] =>
        destruct (continuum ext a b d) eqn:?; simpl
    | |- context [Np.broadcast2 ?f ?a ?b] =>
        destruct (Np.broadcast2 f a b) eqn:?; simpl
    | |- context [Np.mask_select ?m ?a] =>
        destruct (Np.mask_select m a) eqn:?; simpl
    end.

Lemma scale_and_fit_trace :
  forall constraints bounds inst_disp min_method minopts q h,
    let out := scale_and_fit constraint ext constraints bounds inst_disp
                 min_method minopts q h in
    trace (snd out) = trace h \/
    exists wv, trace (snd out) = trace h ++ [CallMinimize wv].
Proof.
  intros constraints bounds inst_disp min_method minopts q h.
  cbv zeta. unfold scale_and_fit.
  destruct (Np.mean (s_ q) <=? 0)%float; run; [now left |].
  destruct bounds as [b |]; simpl; [| now left].
  match goal with
  | |- context [minimize ext ?f ?a ?m ?sb ?c ?o] =>
      destruct (minimize ext f a m sb c o) as [e | r]
  end; simpl; pixel_cases; right; eexists; reflexivity.
Qed.

Lemma continuum_calls_app :
  forall t u,
    continuum_calls (t ++ u) = (continuum_calls t + continuum_calls u)%nat.
Proof.
  intros t u. unfold continuum_calls. now rewrite filter_app, length_app.
Qed.

Lemma prepare_stored_continuum :
  forall function fitting_window weights h c r h1,
    cont (self h) = Some c ->
    prepare constraint ext function fitting_window weights h = (r, h1) ->
    trace h1 = trace h.
Proof.
  intros function fitting_window weights h c r h1 Hc Hprep.
  destruct (prepare_inv _ _ _ _ _ _ _ _ Hprep)
    as (_ & _ & _ & [H | [H _]] & _); [exact H |].
  rewrite Hc in H. discriminate H.
Qed.

Lemma linefit_trace :
  forall function fitting_window constraints bounds inst_disp min_method
         minopts weights h,
    trace (snd (linefit constraint ext function fitting_window constraints
                  bounds inst_disp min_method minopts weights h))
    = trace (snd (prepare constraint ext function fitting_window weights h))
    \/
    exists wv,
      trace (snd (linefit constraint ext function fitting_window constraints
                    bounds inst_disp min_method minopts weights h))
      = trace (snd (prepare constraint ext function fitting_window weights h))
        ++ [CallMinimize wv].
Proof.
  intros function fitting_window constraints bounds inst_disp min_method
         minopts weights h.
  unfold linefit, bind.
  destruct (prepare constraint ext function fitting_window weights h)
    as [[e | [q |]] h1]; cbn [fst snd].
  - now left.
  - apply scale_and_fit_trace.
  - now left.
Qed.

(** X1.  A profile name other than 'gaussian' and 'gauss_hermite' makes
    [Spectrum.linefit] raise [NameError] before anything is read or
    written: the object, the caller's [p0] and [copts] and the record of
    external calls are as they were. *)
Theorem linefit_unknown_function :
  forall function fitting_window constraints bounds inst_disp min_method
         minopts weights h,
    function <> "gaussian"%string ->
    function <> "gauss_hermite"%string ->
    linefit constraint ext function fitting_window constraints bounds
      inst_disp min_method minopts weights h
    = (inl NameError, h).
Proof.
  intros function fitting_window constraints bounds inst_disp min_method
         minopts weights h H1 H2.
  apply String.eqb_neq in H1. apply String.eqb_neq in H2.
  unfold linefit, prepare, select_profile, bind, get, raise. simpl.
  rewrite H1, H2. reflexivity.
Qed.

(** X2.  When the object carries a continuum in [self.cont],
    [Spectrum.linefit] never calls the continuum estimator, whatever its
    arguments and however the call ends. *)
Theorem linefit_stored_continuum :
  forall function fitting_window constraints bounds inst_disp min_method
         minopts weights h c,
    cont (self h) = Some c ->
    continuum_calls
      (trace (snd (linefit constraint ext function fitting_window constraints
                     bounds inst_disp min_method minopts weights h)))
    = continuum_calls (trace h).
Proof.
  intros function fitting_window constraints bounds inst_disp min_method
         minopts weights h c Hc.
  destruct (prepare constraint ext function fitting_window weights h)
    as [r h1] eqn:Hprep.
  pose proof (prepare_stored_continuum _ _ _ _ _ _ _ Hc Hprep) as Htr.
  destruct (linefit_trace function fitting_window constraints bounds inst_disp
              min_method minopts weights h) as [Ht | [wv Ht]];
    rewrite Ht, Hprep; cbn [snd].
  - now rewrite Htr.
  - rewrite continuum_calls_app, Htr.
    change (continuum_calls [CallMinimize wv]) with 0%nat. lia.
Qed.


(** X4.  With [copts] left at [None] and no stored continuum, the
    continuum estimator is called once, on the rest wavelengths and the
    data of the valid pixels, with the options niterate 5, degr 4,
    upper_threshold 2, lower_threshold 2 and returns 'function'; its
    result is the continuum subtracted from the data and the value of
    [self.fitcont]; the caller's [copts] stays [None]. *)
Theorem linefit_default_continuum_options :
  forall function fitting_window weights h q h1,
    prepare constraint ext function fitting_window weights h
    = (inr (Some q), h1) ->
    copts h = None ->
    cont (self h) = None ->
    valid_part fitting_window (self h) (restwl (self h)) = Some (wl_ q) /\
    valid_part fitting_window (self h) (data (self h)) = Some (data_ q) /\
    trace h1
    = trace h
      ++ [CallContinuum (wl_ q) (data_ q)
            [("niterate"%string, PInt 5); ("degr"%string, PInt 4);
             ("upper_threshold"%string, PInt 2);
             ("lower_threshold"%string, PInt 2);
             ("returns"%string, PStr "function")]] /\
    copts h1 = None /\
    continuum ext (wl_ q) (data_ q)
      [("niterate"%string, PInt 5); ("degr"%string, PInt 4);
       ("upper_threshold"%string, PInt 2);
       ("lower_threshold"%string, PInt 2);
       ("returns"%string, PStr "function")] = inr (cont_ q) /\
    Np.broadcast2 PrimFloat.sub (data_ q) (cont_ q) = inr (s_ q) /\
    fitcont (self h1) = Some (cont_ q).
Proof.
  intros function fitting_window weights h q h1 Hprep Hco Hc.
  destruct (prepare_inv _ _ _ _ _ _ _ _ Hprep) as (_ & _ & _ & _ & Hq).
  destruct (Hq q eq_refl)
    as ((Hwl & Hd & _ & Hcont & Hs & _ & Hcl) & _ & Hco1 & _ & _ & Hfc & _
        & Htr).
  rewrite Hc in Htr. rewrite Hco in Hco1, Hcl. simpl in Hco1, Hcl.
  rewrite Hcl in Htr, Hcont.
  destruct Hcont as [Hcont | [_ Hcont]]; [congruence |].
  repeat split; assumption.
Qed.

(** The call gets to line 203 as soon as the profile is known, the
    window can be computed and at most 80% of the pixels are flagged. *)
Lemma prepare_enters_pixels :
  forall function fitting_window weights h fw fl,
    function = "gaussian"%string \/ function = "gauss_hermite"%string ->
    window_mask fitting_window (self h) = Some fw ->
    flags (self h) = Some fl ->
    mostly_flagged fl = false ->
    exists n npc f cl h0,
      prepare constraint ext function fitting_window weights h
      = pixels constraint ext n npc f cl fw weights h0 /\
      flags (self h0) = flags (self h) /\
      restwl (self h0) = restwl (self h) /\
      data (self h0) = data (self h) /\
      cont (self h0) = cont (self h) /\
      em_model (self h0) = em_model (self h) /\
      fit_status (self h0) = fit_status (self h) /\
      p0 h0 = p0 h /\
      trace h0 = trace h.
Proof.
  intros function fitting_window weights h fw fl Hf Hw Hfl Hmost.
  destruct h as [o a c t]. destruct o. unfold window_mask in Hw.
  simpl in *. subst.
  unfold prepare, select_profile, window.
  destruct Hf as [-> | ->]; destruct fitting_window as [[lo hi]|]; run.
  all: match type of Hw with
       | option_map _ ?a = _ => destruct a; simpl in Hw; [| discriminate Hw]
       end.
  all: injection Hw as <-; simpl; rewrite Hmost; simpl.
  all: do 5 eexists; split; [reflexivity |]; simpl; repeat split.
Qed.

(** [pixels] on an object without [restwl]. *)
Lemma pixels_without_restwl :
  forall n npc f cl fw weights h fl r h1,
    pixels constraint ext n npc f cl fw weights h = (r, h1) ->
    flags (self h) = Some fl ->
    restwl (self h) = None ->
    r = inl match Np.broadcast2 andb (map negb fl) fw with
            | inr _ => AttributeError
            | inl _ => ValueError
            end /\
    h1 = h.
Proof.
  intros n npc f cl fw weights h fl r h1.
  open_heap h. unfold pixels. run. pixel_cases.
  all: intros H Hfl Hr; try discriminate Hfl; try discriminate Hr.
  all: injection Hfl as <-; injection H as <- <-.
  all: repeat match goal with
         | H : Np.broadcast2 _ _ _ = _ |- _ => rewrite H
         end.
  all: split; [| reflexivity].
  all: unfold Np.broadcast2 in *;
    repeat match goal with
      | H : context [if ?b then _ else _] |- _ => destruct b
      | H : context [match ?a with [] => _ | _ :: _ => _ end] |- _ =>
          destruct a
      end; congruence.
Qed.

(** X5.  [Spectrum.linefit] reads the wavelengths of the valid pixels
    from [self.restwl]: on an object where that attribute was never set
    (and that is not mostly flagged) the call raises [AttributeError]
    before any external call, and leaves [p0], [self.em_model] and
    [self.fit_status] as they were.  (If the flags and the window do not
    even have compatible lengths, the exception is the [ValueError] of
    line 203 instead.) *)
Theorem linefit_without_restwl :
  forall function fitting_window constraints bounds inst_disp min_method
         minopts weights h fl r h',
    function = "gaussian"%string \/ function = "gauss_hermite"%string ->
    match fitting_window with
    | None => data (self h)
    | Some _ => wl (self h)
    end <> None ->
    flags (self h) = Some fl ->
    mostly_flagged fl = false ->
    restwl (self h) = None ->
    linefit constraint ext function fitting_window constraints bounds
      inst_disp min_method minopts weights h = (r, h') ->
    r = inl match valid_pixels fitting_window (self h) with
            | Some _ => AttributeError
            | None => ValueError
            end /\
    trace h' = trace h /\
    p0 h' = p0 h /\
    em_model (self h') = em_model (self h) /\
    fit_status (self h') = fit_status (self h).
Proof.
  intros function fitting_window constraints bounds inst_disp min_method
         minopts weights h fl r h' Hf Hw Hfl Hmost Hr.
  assert (Hfw : exists fw, window_mask fitting_window (self h) = Some fw).
  { unfold window_mask. destruct fitting_window as [[lo hi]|];
      match type of Hw with
      | ?a <> None => destruct a; [eexists; reflexivity | congruence]
      end. }
  destruct Hfw as (fw & Hfw).
  destruct (prepare_enters_pixels function fitting_window weights h fw fl
              Hf Hfw Hfl Hmost)
    as (n & npc & f & cl & h0 & Hprep & Hfl0 & Hr0 & _ & _ & Hem & Hst
        & Hp0 & Htr).
  unfold linefit, bind. rewrite Hprep.
  destruct (pixels constraint ext n npc f cl fw weights h0)
    as [r1 h1] eqn:Hpix.
  rewrite Hfl in Hfl0. rewrite Hr in Hr0.
  destruct (pixels_without_restwl _ _ _ _ _ _ _ _ _ _ Hpix Hfl0 Hr0)
    as (-> & ->).
  intros E. injection E as <- <-.
  unfold valid_pixels. rewrite Hfw, Hfl.
  split; [| auto].
  now destruct (Np.broadcast2 andb (map negb fl) fw).
Qed.

(** Arrays of different lengths, neither of which is 1, cannot be
    combined. *)
Lemma broadcast2_mismatch :
  forall (A B C : Type) (f : A -> B -> C) (a : list A) (b : list B),
    List.length a <> List.length b ->
    List.length a <> 1%nat ->
    List.length b <> 1%nat ->
    Np.broadcast2 f a b = inl ValueError.
Proof.
  intros A B C f a b Hab Ha Hb. unfold Np.broadcast2.
  apply Nat.eqb_neq in Hab. rewrite Hab.
  destruct a as [| x [| x' a]]; destruct b as [| y [| y' b]];
    simpl in *; congruence.
Qed.

Lemma valid_part_inv :
  forall fitting_window o a y,
    valid_part fitting_window o a = Some y ->
    exists fw fl valid x,
      window_mask fitting_window o = Some fw /\
      flags o = Some fl /\
      Np.broadcast2 andb (map negb fl) fw = inr valid /\
      a = Some x /\
      Np.mask_select valid x = inr y.
Proof.
  intros fitting_window o a y. unfold valid_part, valid_pixels.
  destruct (window_mask fitting_window o) as [fw |]; [| discriminate].
  destruct (flags o) as [fl |]; [| discriminate].
  destruct (Np.broadcast2 andb (map negb fl) fw) as [e | valid] eqn:Hv;
    [discriminate |].
  destruct a as [x |]; [| discriminate].
  destruct (Np.mask_select valid x) as [e | y'] eqn:Hy; [discriminate |].
  intros H. injection H as <-. now exists fw, fl, valid, x.
Qed.

(** [pixels] on an object whose stored continuum does not fit the
    selection. *)
Lemma pixels_continuum_shape :
  forall n npc f cl fw weights h fl valid rw wl' d d' c e r h1,
    pixels constraint ext n npc f cl fw weights h = (r, h1) ->
    flags (self h) = Some fl ->
    Np.broadcast2 andb (map negb fl) fw = inr valid ->
    restwl (self h) = Some rw ->
    Np.mask_select valid rw = inr wl' ->
    data (self h) = Some d ->
    Np.mask_select valid d = inr d' ->
    cont (self h) = Some c ->
    Np.broadcast2 PrimFloat.sub d' c = inl e ->
    r = inl e /\
    trace h1 = trace h /\
    p0 h1 = p0 h /\
    em_model (self h1) = em_model (self h) /\
    fit_status (self h1) = fit_status (self h) /\
    fitcont (self h1) = Some c.
Proof.
  intros n npc f cl fw weights h fl valid rw wl' d d' c e r h1.
  open_heap h. unfold pixels. run.
  intros H Hfl Hv Hrw Hwl Hd Hd' Hc He. subst.
  rewrite Hv in H. simpl in H. rewrite Hwl in H. simpl in H.
  rewrite Hd' in H. simpl in H. rewrite He in H. simpl in H.
  injection H as <- <-. simpl. repeat split.
Qed.

Lemma broadcast2_empty :
  forall (c s : list float),
    Np.broadcast2 PrimFloat.sub [] c = inr s -> s = [].
Proof.
  intros c s. unfold Np.broadcast2.
  destruct c as [| y [| z t]]; simpl; intros H;
    first [now injection H | discriminate H].
Qed.

(** X6.  When no pixel is valid (for instance a fitting window that holds
    no wavelength) and the preparation goes through, which takes the
    continuum to be estimated or a stored one of no or of one value, the
    signal is empty and the scale factor is the mean of an empty array,
    NaN; the test [scale_factor <= 0] does not stop the call, the
    amplitudes of the caller's [p0] are divided by NaN, and the minimizer
    is called on an empty spectrum. *)
Theorem linefit_no_valid_pixel :
  forall function fitting_window constraints b inst_disp min_method
         minopts weights h q h1 r h',
    prepare constraint ext function fitting_window weights h
    = (inr (Some q), h1) ->
    data_ q = [] ->
    linefit constraint ext function fitting_window constraints (Some b)
      inst_disp min_method minopts weights h = (r, h') ->
    valid_part fitting_window (self h) (data (self h)) = Some [] /\
    (List.length (cont_ q) <= 1)%nat /\
    s_ q = [] /\
    Np.mean (s_ q) = nan /\
    p0 h' = Np.stride_div nan (npars_pc q) (p0 h) /\
    exists wv,
      trace h' = trace h1 ++ [CallMinimize wv] /\
      work_s wv = [] /\
      work_x0 wv = Np.stride_div nan (npars_pc q) (p0 h).
Proof.
  intros function fitting_window constraints b inst_disp min_method
         minopts weights h q h1 r h' Hprep Hd.
  destruct (prepare_inv _ _ _ _ _ _ _ _ Hprep) as (Hp0 & _ & _ & _ & Hq).
  destruct (Hq q eq_refl) as ((_ & Hdata & _ & _ & Hsub & _) & _).
  rewrite Hd in Hdata, Hsub.
  assert (Hs : s_ q = []) by exact (broadcast2_empty _ _ Hsub).
  assert (Hc : (List.length (cont_ q) <= 1)%nat).
  { revert Hsub. unfold Np.broadcast2.
    destruct (cont_ q) as [| y [| z t]]; simpl; intros H;
      first [lia | discriminate H]. }
  unfold linefit, bind. rewrite Hprep.
  unfold scale_and_fit. rewrite Hs.
  change (Np.mean []) with nan.
  change (nan <=? 0)%float with false.
  run.
  match goal with
  | |- context [minimize ext ?f ?a ?m ?sb ?c ?o] =>
      destruct (minimize ext f a m sb c o) as [e | r0]
  end; simpl; pixel_cases.
  all: intros H; injection H as <- <-; simpl; rewrite Hp0.
  all: split; [exact Hdata |]; split; [exact Hc |].
  all: split; [reflexivity |]; split; [reflexivity |]; split; [reflexivity |].
  all: eexists; split; [reflexivity |]; split; reflexivity.
Qed.

(** X17.  A stored continuum is subtracted from the data of the valid
    pixels as it is, without the selection being applied to it: when
    pixels are dropped (by the flags or by the fitting window) and
    neither the stored continuum nor the selection has length 1, the
    subtraction of line 229 raises [ValueError], before the caller's [p0]
    is touched and before any external call. *)
Theorem linefit_stored_continuum_shape :
  forall function fitting_window constraints bounds inst_disp min_method
         minopts weights h fl wl' d' c r h',
    function = "gaussian"%string \/ function = "gauss_hermite"%string ->
    flags (self h) = Some fl ->
    mostly_flagged fl = false ->
    valid_part fitting_window (self h) (restwl (self h)) = Some wl' ->
    valid_part fitting_window (self h) (data (self h)) = Some d' ->
    cont (self h) = Some c ->
    List.length d' <> List.length c ->
    List.length d' <> 1%nat ->
    List.length c <> 1%nat ->
    linefit constraint ext function fitting_window constraints bounds
      inst_disp min_method minopts weights h = (r, h') ->
    r = inl ValueError /\
    trace h' = trace h /\
    p0 h' = p0 h /\
    em_model (self h') = em_model (self h) /\
    fit_status (self h') = fit_status (self h) /\
    fitcont (self h') = Some c.
Proof.
  intros function fitting_window constraints bounds inst_disp min_method
         minopts weights h fl wl' d' c r h' Hf Hfl Hmost Hwl Hd Hc
         Hlen Hd1 Hc1.
  destruct (valid_part_inv _ _ _ _ Hwl)
    as (fw & fl1 & valid & rw & Hfw & Hfl1 & Hv & Hrw & Hwl').
  destruct (valid_part_inv _ _ _ _ Hd)
    as (fw2 & fl2 & valid2 & d & Hfw2 & Hfl2 & Hv2 & Hd0 & Hd').
  assert (fl1 = fl) by congruence. assert (fl2 = fl) by congruence.
  assert (fw2 = fw) by congruence. subst fl1 fl2 fw2.
  assert (valid2 = valid) by congruence. subst valid2.
  destruct (prepare_enters_pixels function fitting_window weights h fw fl
              Hf Hfw Hfl Hmost)
    as (n & npc & f & cl & h0 & Hprep & Hfl0 & Hr0 & Hda0 & Hc0 & Hem & Hst
        & Hp0 & Htr).
  unfold linefit, bind. rewrite Hprep.
  destruct (pixels constraint ext n npc f cl fw weights h0)
    as [r1 h1] eqn:Hpix.
  rewrite Hfl in Hfl0. rewrite Hrw in Hr0. rewrite Hd0 in Hda0.
  rewrite Hc in Hc0.
  destruct (pixels_continuum_shape _ _ _ _ _ _ _ _ _ _ _ _ _ _ _ _ _
              Hpix Hfl0 Hv Hr0 Hwl' Hda0 Hd' Hc0
              (broadcast2_mismatch _ _ _ PrimFloat.sub d' c Hlen Hd1 Hc1))
    as (-> & Ht1 & Hp1 & He1 & Hs1 & Hf1).
  intros E. injection E as <- <-.
  repeat split; congruence.
Qed.

End Spectrum_linefit_calls.

(** ** Cube: spectrum indices, argument broadcasting, name tables *)

Section Cube_arrays.

Import datacube.

Local Open Scope float_scope.

Lemma In_grid :
  forall (sh : nat * nat) (c : coord),
    In c (grid sh) <->
    (0 <= fst c < Z.of_nat (fst sh))%Z /\ (0 <= snd c < Z.of_nat (snd sh))%Z.
Proof.
  intros [R C] [i j]. unfold grid. simpl. rewrite in_flat_map. split.
  - intros (a & Ha & Hin). apply in_map_iff in Hin.
    destruct Hin as (b & Hb & Hin). apply in_seq in Ha. apply in_seq in Hin.
    injection Hb as <- <-. lia.
  - intros [Hi Hj]. exists (Z.to_nat i). split; [apply in_seq; lia |].
    apply in_map_iff. exists (Z.to_nat j). split; [| apply in_seq; lia].
    f_equal; lia.
Qed.

Lemma StronglySorted_app :
  forall (U : Type) (lt : U -> U -> Prop) (l1 l2 : list U),
    StronglySorted lt l1 -> StronglySorted lt l2 ->
    (forall a b, In a l1 -> In b l2 -> lt a b) ->
    StronglySorted lt (l1 ++ l2).
Proof.
  intros U lt l1 l2 H1 H2 H. induction H1 as [| a l1 H1 IH Hall]; simpl;
    [exact H2 |].
  constructor.
  - apply IH. intros x y Hx Hy. apply H; [now right | exact Hy].
  - apply Forall_app. split; [exact Hall |].
    apply Forall_forall. intros y Hy. apply H; [now left | exact Hy].
Qed.

Lemma row_sorted :
  forall (i : Z) (n s : nat),
    StronglySorted row_major_lt (map (fun j => (i, Z.of_nat j)) (seq s n)).
Proof.
  intros i n. induction n as [| n IH]; intros s; simpl; constructor.
  - apply IH.
  - apply Forall_forall. intros [a b] Hin. apply in_map_iff in Hin.
    destruct Hin as (j & Hj & Hin). apply in_seq in Hin.
    injection Hj as <- <-. right. simpl. split; [reflexivity | lia].
Qed.

Lemma grid_rows_sorted :
  forall (C n s : nat),
    StronglySorted row_major_lt
      (flat_map (fun i => map (fun j => (Z.of_nat i, Z.of_nat j)) (seq 0 C))
                (seq s n)).
Proof.
  intros C n. induction n as [| n IH]; intros s; simpl; [constructor |].
  apply StronglySorted_app; [apply row_sorted | apply IH |].
  intros [a b] [a' b'] Ha Hb. apply in_map_iff in Ha.
  destruct Ha as (j & Hj & _). injection Hj as <- <-.
  apply in_flat_map in Hb. destruct Hb as (i' & Hi' & Hb).
  apply in_map_iff in Hb. destruct Hb as (j' & Hj' & _).
  injection Hj' as <- <-. apply in_seq in Hi'. left. simpl. lia.
Qed.

Lemma StronglySorted_filter :
  forall (U : Type) (lt : U -> U -> Prop) (f : U -> bool) (l : list U),
    StronglySorted lt l -> StronglySorted lt (filter f l).
Proof.
  intros U lt f l H. induction H as [| a l H IH Hall]; simpl; [constructor |].
  destruct (f a); [| exact IH].
  constructor; [exact IH |].
  apply Forall_forall. intros x Hx. apply filter_In in Hx.
  rewrite Forall_forall in Hall. now apply Hall.
Qed.

Lemma StronglySorted_NoDup :
  forall (U : Type) (lt : U -> U -> Prop) (l : list U),
    (forall a, ~ lt a a) -> StronglySorted lt l -> NoDup l.
Proof.
  intros U lt l Hirr H. induction H as [| a l H IH Hall]; constructor;
    [| exact IH].
  intros Hin. rewrite Forall_forall in Hall. exact (Hirr a (Hall a Hin)).
Qed.

(** X7.  [Cube._set_spec_indices] lists exactly the coordinates of the
    spatial shape that the mask leaves free, each once, in row-major
    order; without a spatial mask these are all rows x columns spaxels. *)
Theorem set_spec_indices_unmasked :
  forall (sh : nat * nat) (spatial_mask : option (coord -> bool)),
    let mask := fst (_set_spec_indices sh spatial_mask) in
    let spec_indices := snd (_set_spec_indices sh spatial_mask) in
    (forall c, In c spec_indices <->
               (0 <= fst c < Z.of_nat (fst sh))%Z /\
               (0 <= snd c < Z.of_nat (snd sh))%Z /\
               mask c = false) /\
    StronglySorted row_major_lt spec_indices /\
    NoDup spec_indices /\
    (spatial_mask = None ->
     List.length spec_indices = (fst sh * snd sh)%nat).
Proof.
  intros sh spatial_mask. cbv zeta. unfold _set_spec_indices. simpl.
  assert (Hs : StronglySorted row_major_lt
                 (filter (fun c => negb (match spatial_mask with
                                         | Some m => m
                                         | None => fun _ => false
                                         end c)) (grid sh))).
  { apply StronglySorted_filter. destruct sh as [R C]. apply grid_rows_sorted. }
  split; [| split; [exact Hs | split]].
  - intros c. rewrite filter_In, In_grid, negb_true_iff. tauto.
  - apply (StronglySorted_NoDup _ row_major_lt); [| exact Hs].
    intros a [H | [_ H]]; lia.
  - intros ->. simpl.
    rewrite forallb_filter_id.
    + destruct sh as [R C]. unfold grid. simpl.
      rewrite flat_map_constant_length with (c := C).
      * now rewrite length_seq.
      * intros x _. now rewrite length_map, length_seq.
    + apply forallb_forall. reflexivity.
Qed.

Lemma existsb_coord_eqb :
  forall (c : coord) (l : list coord),
    existsb (coord_eqb c) l = true <-> In c l.
Proof.
  intros c l. rewrite existsb_exists. split.
  - intros (x & Hin & Heq). unfold coord_eqb in Heq.
    apply andb_true_iff in Heq. destruct Heq as [H1 H2].
    apply Z.eqb_eq in H1. apply Z.eqb_eq in H2.
    destruct c, x; simpl in *; subst. exact Hin.
  - intros Hin. exists c. split; [exact Hin |].
    unfold coord_eqb. now rewrite !Z.eqb_refl.
Qed.

Lemma coord_eqb_eq :
  forall a b : coord, coord_eqb a b = true -> a = b.
Proof.
  intros [a1 a2] [b1 b2] E. unfold coord_eqb in E. simpl in E.
  apply andb_true_iff in E. destruct E as [E1 E2].
  apply Z.eqb_eq in E1. apply Z.eqb_eq in E2. now subst.
Qed.

Lemma assign_all_same_length :
  forall (a : list float) (spec_indices : list coord)
         (cube : coord -> list float),
    (forall c, In c spec_indices -> List.length (cube c) = List.length a) ->
    exists cube',
      assign_all spec_indices a cube = (inr tt, cube') /\
      forall c, cube' c = if existsb (coord_eqb c) spec_indices
                          then a else cube c.
Proof.
  intros a spec_indices. induction spec_indices as [| h t IH];
    intros cube Hlen.
  - exists cube. split; reflexivity.
  - simpl. unfold assign. rewrite (Hlen h) by now left.
    rewrite Nat.eqb_refl.
    destruct (IH (store cube h a)) as (cube' & Hrun & Hval).
    + intros c Hin. unfold store. destruct (coord_eqb c h); [reflexivity |].
      apply Hlen. now right.
    + exists cube'. split; [exact Hrun |].
      intros c. rewrite Hval. unfold store.
      destruct (existsb (coord_eqb c) t) eqn:Ht;
        [now rewrite orb_true_r |].
      rewrite orb_false_r. reflexivity.
Qed.

(** X8.  [Cube._arg2cube] with a one-dimensional argument as long as the
    spectral axis writes that spectrum into every spaxel of
    [spec_indices] and leaves every other spaxel (the masked ones) as it
    was; no exception is raised. *)
Theorem arg2cube_spectrum :
  forall (a : list float) (spec_indices : list coord)
         (cube : coord -> list float),
    (forall c, In c spec_indices -> List.length (cube c) = List.length a) ->
    exists cube',
      _arg2cube spec_indices (ArgSpectrum a) cube = (inr tt, cube') /\
      (forall c, In c spec_indices -> cube' c = a) /\
      (forall c, ~ In c spec_indices -> cube' c = cube c).
Proof.
  intros a spec_indices cube Hlen.
  destruct (assign_all_same_length a spec_indices cube Hlen)
    as (cube' & Hrun & Hval).
  exists cube'. split; [exact Hrun |]. split; intros c Hc; rewrite Hval.
  - apply existsb_coord_eqb in Hc. now rewrite Hc.
  - destruct (existsb (coord_eqb c) spec_indices) eqn:E; [| reflexivity].
    apply existsb_coord_eqb in E. contradiction.
Qed.

Lemma every_from_block :
  forall (V : Type) (n : nat) (i : V) (rest : list V),
    every_from (S n) 0 (repeat i (S n) ++ rest)
    = i :: every_from (S n) 0 rest.
Proof.
  intros V n i rest. simpl. f_equal.
  assert (H : forall k, every_from (S n) k (repeat i k ++ rest)
                        = every_from (S n) 0 rest).
  { induction k as [| k IH]; [reflexivity | exact IH]. }
  apply H.
Qed.

Lemma map_constant_repeat :
  forall (U V : Type) (c : V) (l : list U),
    map (fun _ => c) l = repeat c (List.length l).
Proof.
  intros U V c l. induction l as [| u l IH]; simpl; congruence.
Qed.

Lemma every_from_components :
  forall (V : Type) (n : nat) (cs : list V),
    every_from (S n) 0 (flat_map (fun i => repeat i (S n)) cs) = cs.
Proof.
  intros V n cs. induction cs as [| c cs IH]; [reflexivity |].
  cbn [flat_map]. rewrite (every_from_block _ _ c). now rewrite IH.
Qed.

(** X9.  The table of names written by [Cube._fit_table] and the reading
    of [Cube.loadfit]: taking every [len(pnames)]-th entry of the column
    [component] gives back the component names as the column stores
    them, in order and with their repetitions; both columns have one row
    per component and parameter. *)
Theorem fit_table_component_names :
  forall (stored : string -> string) (cnames pnames : list string),
    pnames <> [] ->
    loadfit_component_names (List.length pnames)
      (_fit_table stored cnames pnames) = inr (map stored cnames) /\
    List.length (component (_fit_table stored cnames pnames))
    = (List.length cnames * List.length pnames)%nat /\
    List.length (parameter (_fit_table stored cnames pnames))
    = (List.length cnames * List.length pnames)%nat.
Proof.
  intros stored cnames pnames Hne.
  destruct pnames as [| p ps]; [congruence |].
  assert (Hread :
            loadfit_component_names (List.length (p :: ps))
              (_fit_table stored cnames (p :: ps))
            = inr (map stored cnames)).
  { unfold loadfit_component_names, every, _fit_table.
    cbn [component parameter].
    change (Nat.eqb (List.length (p :: ps)) 0) with false. cbv iota.
    f_equal.
    rewrite (flat_map_ext _ (fun i => repeat i (S (List.length ps))))
      by (intros c; apply (map_constant_repeat _ _ c (p :: ps))).
    rewrite <- (every_from_components _ (List.length ps) (map stored cnames)).
    f_equal. clear. induction cnames as [| c cs IH]; [reflexivity |].
    cbn [flat_map map]. rewrite map_app, IH. f_equal.
    clear. induction (S (List.length ps)) as [| n IHn]; [reflexivity |].
    simpl. now rewrite IHn. }
  split; [exact Hread |].
  split.
  - unfold _fit_table. cbn [component]. rewrite length_map.
    rewrite flat_map_constant_length with (c := List.length (p :: ps));
      [reflexivity |].
    intros x _. apply length_map.
  - unfold _fit_table. cbn [parameter]. rewrite length_map.
    rewrite flat_map_constant_length with (c := List.length (p :: ps));
      [reflexivity |].
    intros x _. apply length_map.
Qed.

Lemma abs_opp :
  forall x : float, abs (- x) = abs x.
Proof.
  intros x. apply FloatAxioms.Prim2SF_inj.
  rewrite !FloatAxioms.abs_spec, FloatAxioms.opp_spec.
  now destruct (Prim2SF x).
Qed.

(** X10.  [Cube.lineflux] does not depend on the sign of [sigma], for
    every pair of [float64] arguments (NaN and the infinities
    included). *)
Theorem lineflux_sign :
  forall amplitude sigma : float,
    lineflux amplitude (- sigma) = lineflux amplitude sigma.
Proof.
  intros amplitude sigma. unfold lineflux. now rewrite abs_opp.
Qed.

(** *** The bins of a Voronoi table *)

Lemma insert_unique_In :
  forall z l x, In x (insert_unique z l) <-> x = z \/ In x l.
Proof.
  intros z l x. induction l as [| h t IH]; simpl.
  - intuition.
  - destruct (z <? h)%Z; [simpl; intuition |].
    destruct (z =? h)%Z eqn:E.
    + apply Z.eqb_eq in E. subst. simpl. intuition.
    + simpl. rewrite IH. intuition.
Qed.

Lemma insert_unique_sorted :
  forall z l, StronglySorted Z.lt l -> StronglySorted Z.lt (insert_unique z l).
Proof.
  intros z l H. induction H as [| h t H IH Hall]; simpl.
  - constructor; constructor.
  - destruct (z <? h)%Z eqn:E1.
    + apply Z.ltb_lt in E1. constructor; [now constructor |].
      constructor; [exact E1 |].
      apply Forall_impl with (2 := Hall). intros a Ha. lia.
    + destruct (z =? h)%Z eqn:E2; [now constructor |].
      apply Z.ltb_ge in E1. apply Z.eqb_neq in E2.
      constructor; [exact IH |].
      apply Forall_forall. intros x Hx. apply insert_unique_In in Hx.
      rewrite Forall_forall in Hall. destruct Hx as [-> | Hx]; [lia | auto].
Qed.

Lemma unique_In :
  forall a x, In x (unique a) <-> In x a.
Proof.
  intros a x. induction a as [| h t IH]; simpl; [reflexivity |].
  rewrite insert_unique_In, IH. intuition.
Qed.

Lemma unique_sorted :
  forall a, StronglySorted Z.lt (unique a).
Proof.
  induction a as [| h t IH]; simpl; [constructor |].
  now apply insert_unique_sorted.
Qed.

Lemma first_index_spec :
  forall z a,
    In z a ->
    (first_index z a < List.length a)%nat /\
    nth (first_index z a) a 0%Z = z /\
    forall k, (k < first_index z a)%nat -> nth k a 0%Z <> z.
Proof.
  intros z a. induction a as [| h t IH]; intros Hin; [destruct Hin |].
  simpl. destruct (h =? z)%Z eqn:E.
  - apply Z.eqb_eq in E. split; [lia |]. split; [exact E |]. intros k Hk. lia.
  - apply Z.eqb_neq in E. destruct Hin as [Hh | Hin]; [contradiction |].
    destruct (IH Hin) as (Hlt & Hnth & Hfirst).
    split; [lia |]. split; [exact Hnth |].
    intros [| k] Hk; [exact E | apply Hfirst; lia].
Qed.

(** X11.  For a binned cube [Cube.linefit] fits one coordinate per bin:
    the bins are taken in strictly ascending order of their number, every
    bin number of the table occurs once, and the coordinate fitted for a
    bin is that of the first row of the table carrying its number. *)
Theorem bin_representatives_one_per_bin :
  forall voronoi_tab : list (coord * Z),
    let bins := unique (map snd voronoi_tab) in
    let reps := bin_representatives voronoi_tab in
    StronglySorted Z.lt bins /\
    (forall b, In b bins <-> exists c, In (c, b) voronoi_tab) /\
    Forall2 (fun c b =>
               exists i,
                 nth_error voronoi_tab i = Some (c, b) /\
                 forall k row, (k < i)%nat ->
                               nth_error voronoi_tab k = Some row ->
                               snd row <> b)
            reps bins.
Proof.
  intros tab. cbv zeta. split; [apply unique_sorted |]. split.
  - intros b. rewrite unique_In, in_map_iff. split.
    + intros ([c b'] & Hb & Hin). simpl in Hb. subst. now exists c.
    + intros (c & Hin). now exists (c, b).
  - unfold bin_representatives, unique_index. rewrite map_map.
    assert (Hall : Forall (fun b => In b (map snd tab))
                          (unique (map snd tab))).
    { apply Forall_forall. intros b. apply unique_In. }
    induction Hall as [| b bs Hb Hbs IH]; simpl; constructor; [| exact IH].
    destruct (first_index_spec b (map snd tab) Hb) as (Hlt & Hnth & Hfirst).
    rewrite length_map in Hlt.
    exists (first_index b (map snd tab)). split.
    + rewrite (nth_error_nth' tab ((0, 0), 0)%Z Hlt). f_equal.
      change 0%Z with (snd ((0, 0), 0)%Z) in Hnth at 1.
      rewrite map_nth in Hnth.
      destruct (nth (first_index b (map snd tab)) tab (0, 0, 0)%Z) as [c b'].
      simpl in *. now subst.
    + intros k row Hk Hrow Heq. apply (Hfirst k Hk).
      change 0%Z with (snd ((0, 0), 0)%Z).
      rewrite map_nth. erewrite nth_error_nth by exact Hrow. exact Heq.
Qed.

(** *** Cube.continuum *)

Lemma is_nan_truthy :
  forall e : float, is_nan e = true -> truthy e = true.
Proof.
  intros e. unfold is_nan, truthy. rewrite !FloatAxioms.eqb_spec.
  destruct (Prim2SF e) eqn:E; try reflexivity.
  all: rewrite SFeqb_refl by discriminate; discriminate.
Qed.

Lemma existsb_is_nan_truthy :
  forall l, existsb is_nan l = true -> existsb truthy l = true.
Proof.
  intros l H. apply existsb_exists in H. destruct H as (x & Hin & Hx).
  apply existsb_exists. exists x. split; [exact Hin | now apply is_nan_truthy].
Qed.

(** X12.  The test that lets [Cube.continuum] fit a spaxel is the test
    that some of the first 20 and some of the last 20 samples are not
    zero: its second clause, on NaN samples, never changes the outcome,
    since NaN is not zero. *)
Theorem edge_guard_nonzero_edges :
  forall s : list float,
    edge_guard s
    = existsb truthy (firstn 20 s)
      && existsb truthy (skipn (List.length s - 20) s).
Proof.
  intros s. unfold edge_guard. cbv zeta.
  destruct (existsb is_nan (firstn 20 s)) eqn:E1;
    [| now rewrite andb_false_l, orb_false_r].
  destruct (existsb is_nan (skipn (List.length s - 20) s)) eqn:E2;
    [| now rewrite andb_false_r, orb_false_r].
  rewrite (existsb_is_nan_truthy _ E1), (existsb_is_nan_truthy _ E2).
  reflexivity.
Qed.

(** The assignment sees the old values only through their number. *)
Lemma assign_repeat :
  forall old a : list float,
    assign old a = assign (repeat 0 (List.length old)) a.
Proof.
  intros old a. unfold assign. rewrite repeat_length.
  now rewrite !map_constant_repeat, repeat_length.
Qed.

Lemma assign_length :
  forall old a v : list float,
    assign old a = inr v -> List.length v = List.length old.
Proof.
  intros old a v. unfold assign.
  destruct (Nat.eqb (List.length a) (List.length old)) eqn:E.
  - intros H. injection H as <-. now apply Nat.eqb_eq.
  - destruct (Nat.eqb (List.length a) 1); [| discriminate].
    intros H. injection H as <-. apply length_map.
Qed.

Variable constraint : Type.
Variable ext : onedspec.Externals constraint.

Lemma continuum_value_length :
  forall wl copts s n,
    List.length (continuum_value constraint ext wl copts s n) = n.
Proof.
  intros wl copts s n. unfold continuum_value.
  destruct (edge_guard s); [| apply repeat_length].
  destruct (onedspec.continuum ext wl s copts) as [e | v];
    [apply repeat_length |].
  destruct (assign (repeat 0 n) v) as [e | w] eqn:E; [apply repeat_length |].
  apply assign_length in E. now rewrite repeat_length in E.
Qed.

Lemma continuum_spaxel_value :
  forall wl copts data c h,
    (forall e, onedspec.continuum ext wl (data h) copts = inl e ->
               e = TypeError \/ e = ValueError) ->
    continuum_spaxel constraint ext wl copts data c h
    = inr (store c h (continuum_value constraint ext wl copts (data h)
                        (List.length (c h)))).
Proof.
  intros wl copts data c h Hexc.
  unfold continuum_spaxel, continuum_value. cbv zeta.
  rewrite map_constant_repeat.
  destruct (edge_guard (data h)); [| reflexivity].
  destruct (onedspec.continuum ext wl (data h) copts) as [e | v] eqn:E.
  - destruct (Hexc e eq_refl) as [-> | ->]; reflexivity.
  - rewrite (assign_repeat (c h) v).
    destruct (assign (repeat 0 (List.length (c h))) v); reflexivity.
Qed.

Lemma continuum_loop_values :
  forall wl copts data (n : coord -> nat) xy c,
    (forall h e, onedspec.continuum ext wl (data h) copts = inl e ->
                 e = TypeError \/ e = ValueError) ->
    (forall h, List.length (c h) = n h) ->
    exists c',
      continuum_loop constraint ext wl copts data xy c = inr c' /\
      forall h, c' h = if existsb (coord_eqb h) xy
                       then continuum_value constraint ext wl copts (data h)
                              (n h)
                       else c h.
Proof.
  intros wl copts data n xy. induction xy as [| k t IH]; intros c Hexc Hlen.
  - exists c. split; reflexivity.
  - simpl. rewrite continuum_spaxel_value by apply Hexc. rewrite Hlen.
    destruct (IH (store c k (continuum_value constraint ext wl copts (data k)
                               (n k))) Hexc)
      as (c' & Hrun & Hval).
    + intros h. unfold store. destruct (coord_eqb h k) eqn:E; [| apply Hlen].
      rewrite continuum_value_length. apply coord_eqb_eq in E. now subst.
    + exists c'. split; [exact Hrun |]. intros h. rewrite Hval. unfold store.
      destruct (existsb (coord_eqb h) t); [now rewrite orb_true_r |].
      rewrite orb_false_r. destruct (coord_eqb h k) eqn:E; [| reflexivity].
      apply coord_eqb_eq in E. now subst.
Qed.

(** X13.  [Cube.continuum] on a cube that is not binned, with a fitting
    window, isolates the failures of the continuum estimator: if the
    estimator raises nothing but [TypeError] and [ValueError], the call
    returns an array in which a spaxel outside [spec_indices] is zero, a
    spaxel whose edges are all zero or on which the estimator raised is
    NaN throughout, and a spaxel on which the estimator returned a
    spectrum of the length of the window holds that spectrum. *)
Theorem continuum_isolates_failures :
  forall (cube : Cube) (lo hi : float) (copts : option dict),
    binned cube = false ->
    (forall wl s d e, onedspec.continuum ext wl s d = inl e ->
                      e = TypeError \/ e = ValueError) ->
    exists c,
      fst (continuum constraint ext cube (Some (lo, hi)) copts) = inr c /\
      forall h,
        let fwidx := map (fun e => (lo <? e) && (e <? hi))
                         (rest_wavelength cube) in
        let wl := Np.select fwidx (rest_wavelength cube) in
        let s := Np.select fwidx (data cube h) in
        let local := match copts with
                     | None => continuum_default_copts
                     | Some d => d
                     end in
        let local := if dict_mem "returns" local then local
                     else dict_set "returns" (PStr "function") local in
        (~ In h (spec_indices cube) -> c h = repeat 0 (List.length s)) /\
        (In h (spec_indices cube) -> edge_guard s = false ->
         c h = repeat nan (List.length s)) /\
        (In h (spec_indices cube) ->
         forall e, onedspec.continuum ext wl s local = inl e ->
                   c h = repeat nan (List.length s)) /\
        (In h (spec_indices cube) -> edge_guard s = true ->
         forall v, onedspec.continuum ext wl s local = inr v ->
                   List.length v = List.length s -> c h = v).
Proof.
  intros cube lo hi copts _ Hexc. unfold continuum. cbv zeta. cbn [fst].
  match goal with
  | |- context [continuum_loop _ _ ?wl ?lc ?dt ?xy ?c0] =>
      destruct (continuum_loop_values wl lc dt
                  (fun h => List.length (dt h)) xy c0) as (c & Hrun & Hval)
  end.
  - intros h e. apply Hexc.
  - intros h. unfold Np.zeros_like. apply length_map.
  - exists c. split; [exact Hrun |]. intros h. rewrite Hval.
    destruct (existsb (coord_eqb h) (spec_indices cube)) eqn:Hmem.
    + apply existsb_coord_eqb in Hmem.
      split; [intros Hn; contradiction |].
      unfold continuum_value.
      split; [intros _ ->; reflexivity |].
      split.
      * intros _ e He. rewrite He. now destruct (edge_guard _).
      * intros _ -> v Hv Hlen. rewrite Hv. unfold assign.
        rewrite repeat_length, Hlen, Nat.eqb_refl. reflexivity.
    + assert (Hn : ~ In h (spec_indices cube)).
      { intros Hin. apply existsb_coord_eqb in Hin. congruence. }
      split; [| repeat split; intros Hin; contradiction].
      intros _. unfold Np.zeros_like. apply map_constant_repeat.
Qed.

End Cube_arrays.

(** ** Cube: the spiral over the spectrum indices, W80, Voronoi binning *)

Section Spiral_cover.

Import datacube.

Variable A : Arith.

(** X14.  The spiral over the coordinates that [_set_spec_indices] lists
    visits every spaxel that the mask leaves free exactly once, and no
    other, whatever the arithmetic and the centre.  (With no centre given
    at least one spaxel must be free.) *)
Theorem spiral_visits_unmasked :
  forall (sh : nat * nat) (spatial_mask : option (coord -> bool))
         (xy : list coord) (sc : option (num A * num A)),
    let mask := fst (_set_spec_indices sh spatial_mask) in
    let spec_indices := snd (_set_spec_indices sh spatial_mask) in
    (sc = None -> spec_indices <> []) ->
    exists out,
      _spiral A false spec_indices xy sc = inr out /\
      NoDup out /\
      forall c, In c out <->
                (0 <= fst c < Z.of_nat (fst sh))%Z /\
                (0 <= snd c < Z.of_nat (snd sh))%Z /\
                mask c = false.
Proof.
  intros sh spatial_mask xy sc mask pts Hne.
  assert (Hin : forall c, In c pts <->
                          (0 <= fst c < Z.of_nat (fst sh))%Z /\
                          (0 <= snd c < Z.of_nat (snd sh))%Z /\
                          mask c = false).
  { intros c. subst pts mask. unfold _set_spec_indices. cbn [fst snd].
    rewrite filter_In, In_grid, negb_true_iff. tauto. }
  assert (Hnd : NoDup pts).
  { subst pts. unfold _set_spec_indices. cbn [snd].
    apply (StronglySorted_NoDup _ row_major_lt).
    - intros a [H | [_ H]]; lia.
    - apply StronglySorted_filter. destruct sh as [R C].
      apply grid_rows_sorted. }
  unfold _spiral. change (traversed false pts xy) with pts.
  destruct (center_defined A pts sc Hne) as (c & ->).
  eexists. split; [reflexivity |].
  rewrite take_points.
  set (b := map (fun p => (radius A c p, angle A c p)) pts).
  assert (Hlen : List.length b = List.length pts)
    by (subst b; apply length_map).
  assert (Hperm : Permutation pts
                    (map (fun i => nth i pts (0%Z, 0%Z)) (argsort A b))).
  { rewrite <- (map_nth_seq _ (0%Z, 0%Z) pts) at 1.
    apply Permutation_map.
    exact (eq_ind _ (fun n => Permutation (seq 0 n) (argsort A b))
             (argsort_perm A b) _ Hlen). }
  split.
  - exact (Permutation_NoDup Hperm Hnd).
  - intros p. rewrite <- Hin. split; intros H.
    + exact (Permutation_in p (Permutation_sym Hperm) H).
    + exact (Permutation_in p Hperm H).
Qed.

End Spiral_cover.

Section Cube_w80_binning.

Import datacube.

Local Open Scope float_scope.

Lemma np_item_in_range :
  forall (V : Type) (a : list V) (k : nat) (d : V),
    (k < List.length a)%nat ->
    np_item a (Z.of_nat k) = inr (nth k a d).
Proof.
  intros V a k d Hk. unfold np_item. cbv zeta.
  assert (H1 : (Z.of_nat k <? 0)%Z = false) by (apply Z.ltb_ge; lia).
  assert (H2 : (Z.of_nat (List.length a) <=? Z.of_nat k)%Z = false)
    by (apply Z.leb_gt; lia).
  rewrite H1. cbv iota. rewrite H1, H2. cbn [orb].
  rewrite Nat2Z.id. now rewrite (nth_error_nth' a d Hk).
Qed.

Lemma np_item_past_end :
  forall (V : Type) (a : list V) (k : Z),
    (Z.of_nat (List.length a) <= k)%Z -> np_item a k = inl IndexError.
Proof.
  intros V a k Hk. unfold np_item. cbv zeta.
  assert (H1 : (k <? 0)%Z = false) by (apply Z.ltb_ge; lia).
  assert (H2 : (Z.of_nat (List.length a) <=? k)%Z = true)
    by (apply Z.leb_le; lia).
  rewrite H1. cbv iota. rewrite H1, H2. reflexivity.
Qed.

Lemma np_items_in_range :
  forall (V : Type) (a : list V) (d : V) (ks : list nat),
    Forall (fun k => (k < List.length a)%nat) ks ->
    np_items a (map Z.of_nat ks) = inr (map (fun k => nth k a d) ks).
Proof.
  intros V a d ks H. induction H as [| k ks Hk H IH]; [reflexivity |].
  simpl. rewrite (np_item_in_range V a k d Hk), IH. reflexivity.
Qed.

(** X15.  On a solution array of [ncomp] components ([npars * ncomp]
    parameter planes and the plane of the reduced chi squared), the test
    of [Cube.w80] on the component number is off by one: a component
    below [ncomp] is read from its own planes, a component above [ncomp]
    raises [RuntimeError], but the component number [ncomp] itself passes
    the test and the first read of a spaxel raises [IndexError]. *)
Theorem w80_component_range :
  forall (npars ncomp component : nat) (em_model : list (coord -> float))
         (h : coord) (d : coord -> float),
    (0 < npars)%nat ->
    List.length em_model = (npars * ncomp + 1)%nat ->
    ((component < ncomp)%nat -> (2 < npars)%nat ->
     w80_parameters (Z.of_nat npars) (Z.of_nat component) em_model h
     = inr (nth (1 + npars * component) em_model d h,
            nth (2 + npars * component) em_model d h,
            map (fun k => nth (k + npars * component) em_model d h)
                (seq 0 npars))) /\
    (component = ncomp ->
     w80_parameters (Z.of_nat npars) (Z.of_nat component) em_model h
     = inl IndexError) /\
    ((ncomp < component)%nat ->
     w80_parameters (Z.of_nat npars) (Z.of_nat component) em_model h
     = inl RuntimeError).
Proof.
  intros npars ncomp component em_model h d Hn Hlen.
  unfold w80_parameters, w80_indexes. cbv zeta. rewrite Hlen.
  split; [| split].
  - intros Hc Hn2.
    replace (1 + Z.of_nat npars * Z.of_nat component
             >? Z.of_nat (npars * ncomp + 1))%Z with false
      by (symmetry; rewrite Z.gtb_ltb; apply Z.ltb_ge; nia).
    replace (1 + Z.of_nat npars * Z.of_nat component)%Z
      with (Z.of_nat (1 + npars * component)) by lia.
    replace (2 + Z.of_nat npars * Z.of_nat component)%Z
      with (Z.of_nat (2 + npars * component)) by lia.
    rewrite (np_item_in_range _ em_model _ d) by nia.
    rewrite (np_item_in_range _ em_model _ d) by nia.
    rewrite Nat2Z.id.
    replace (map (fun k : nat =>
                    (Z.of_nat k + Z.of_nat npars * Z.of_nat component)%Z)
                 (seq 0 npars))
      with (map Z.of_nat (map (fun k => (k + npars * component)%nat)
                              (seq 0 npars))).
    + rewrite (np_items_in_range _ em_model d).
      * now rewrite !map_map.
      * apply Forall_forall. intros k Hk. apply in_map_iff in Hk.
        destruct Hk as (k0 & <- & Hk0). apply in_seq in Hk0. nia.
    + rewrite map_map. apply map_ext. intros k. lia.
  - intros ->.
    replace (1 + Z.of_nat npars * Z.of_nat ncomp
             >? Z.of_nat (npars * ncomp + 1))%Z with false
      by (symmetry; rewrite Z.gtb_ltb; apply Z.ltb_ge; nia).
    rewrite np_item_past_end by lia. reflexivity.
  - intros Hc.
    replace (1 + Z.of_nat npars * Z.of_nat component
             >? Z.of_nat (npars * ncomp + 1))%Z with true
      by (symmetry; rewrite Z.gtb_ltb; apply Z.ltb_lt; nia).
    reflexivity.
Qed.

Lemma fold_store_constant :
  forall (m : list float) (cs : list coord) (b : coord -> list float)
         (c : coord),
    fold_left (fun b k => store b k m) cs b c
    = if existsb (coord_eqb c) cs then m else b c.
Proof.
  intros m cs. induction cs as [| k t IH]; intros b c; [reflexivity |].
  simpl. rewrite IH. unfold store.
  destruct (existsb (coord_eqb c) t); [now rewrite orb_true_r |].
  now rewrite orb_false_r.
Qed.

Lemma fill_bin_value :
  forall arr nchan cs b c,
    fill_bin arr nchan cs b c
    = if existsb (coord_eqb c) cs then bin_mean arr nchan cs else b c.
Proof.
  intros arr nchan cs b c. unfold fill_bin. apply fold_store_constant.
Qed.

(** A coordinate that occurs once in the table belongs to one bin. *)
Lemma samebin_member :
  forall (v : list (coord * Z)) (c : coord) (i j : Z),
    NoDup (map fst v) -> In (c, i) v ->
    existsb (coord_eqb c) (samebin_coords v j) = Z.eqb i j.
Proof.
  intros v c i j Hnd Hin. unfold samebin_coords.
  destruct (Z.eqb i j) eqn:E.
  - apply existsb_coord_eqb. apply in_map_iff. exists (c, i).
    split; [reflexivity |]. apply filter_In. split; [exact Hin | exact E].
  - destruct (existsb (coord_eqb c) _) eqn:F; [| reflexivity].
    apply existsb_coord_eqb in F. apply in_map_iff in F.
    destruct F as ([c' j'] & Hc & Hf). simpl in Hc. subst c'.
    apply filter_In in Hf. destruct Hf as [Hin' Hj]. simpl in Hj.
    apply Z.eqb_eq in Hj. subst j'.
    assert (i = j); [| subst; now rewrite Z.eqb_refl in E].
    clear E. induction v as [| [c0 i0] v IH]; [destruct Hin |].
    simpl in Hnd. inversion Hnd as [| ? ? Hnotin Hnd']; subst.
    destruct Hin as [H1 | H1]; destruct Hin' as [H2 | H2].
    + congruence.
    + injection H1 as -> ->. exfalso. apply Hnotin.
      apply in_map_iff. now exists (c, j).
    + injection H2 as -> ->. exfalso. apply Hnotin.
      apply in_map_iff. now exists (c, i).
    + now apply IH.
Qed.

Lemma samebin_stranger :
  forall (v : list (coord * Z)) (c : coord) (j : Z),
    ~ In c (map fst v) ->
    existsb (coord_eqb c) (samebin_coords v j) = false.
Proof.
  intros v c j Hn. unfold samebin_coords.
  destruct (existsb (coord_eqb c) _) eqn:F; [| reflexivity].
  apply existsb_coord_eqb in F. apply in_map_iff in F.
  destruct F as (r & Hc & Hf). apply filter_In in Hf. exfalso. apply Hn.
  apply in_map_iff. exists r. tauto.
Qed.

Lemma bin_loop_S :
  forall arr nchan v n b,
    bin_loop arr nchan v (S n) b
    = fill_bin arr nchan (samebin_coords v (Z.of_nat n))
        (bin_loop arr nchan v n b).
Proof.
  intros arr nchan v n b. unfold bin_loop.
  rewrite seq_S, fold_left_app. reflexivity.
Qed.

(** After the bins [0 .. n - 1] a spaxel of the table holds the mean of
    its bin if that bin was among them, and is untouched otherwise. *)
Lemma bin_loop_member :
  forall arr nchan v c i,
    NoDup (map fst v) -> In (c, i) v ->
    forall n b,
      bin_loop arr nchan v n b c
      = if (0 <=? i)%Z && (i <? Z.of_nat n)%Z
        then bin_mean arr nchan (samebin_coords v i)
        else b c.
Proof.
  intros arr nchan v c i Hnd Hin n b. induction n as [| n IH].
  - replace ((0 <=? i)%Z && (i <? Z.of_nat 0)%Z) with false; [reflexivity |].
    symmetry. apply andb_false_iff.
    destruct (Z.leb_spec 0 i); [right; apply Z.ltb_ge; lia | now left].
  - rewrite bin_loop_S, fill_bin_value, (samebin_member v c i _ Hnd Hin), IH.
    destruct (Z.eqb_spec i (Z.of_nat n)) as [-> | Hne].
    + replace ((0 <=? Z.of_nat n)%Z && (Z.of_nat n <? Z.of_nat (S n))%Z)
        with true; [reflexivity |].
      symmetry. apply andb_true_iff. split;
        [apply Z.leb_le | apply Z.ltb_lt]; lia.
    + replace (i <? Z.of_nat (S n))%Z with (i <? Z.of_nat n)%Z; [reflexivity |].
      destruct (Z.ltb_spec i (Z.of_nat n)); symmetry;
        [apply Z.ltb_lt | apply Z.ltb_ge]; lia.
Qed.

Lemma bin_loop_stranger :
  forall arr nchan v c,
    ~ In c (map fst v) ->
    forall n b, bin_loop arr nchan v n b c = b c.
Proof.
  intros arr nchan v c Hn n b. induction n as [| n IH]; [reflexivity |].
  now rewrite bin_loop_S, fill_bin_value, (samebin_stranger v c _ Hn), IH.
Qed.

Lemma map_fst_combine :
  forall (U V : Type) (l : list U) (l' : list V),
    List.length l = List.length l' -> map fst (combine l l') = l.
Proof.
  intros U V l. induction l as [| a l IH]; intros [| a' l'] H;
    simpl in *; try discriminate; [reflexivity |].
  f_equal. apply IH. lia.
Qed.

Lemma filter_grid_NoDup :
  forall sh (f : coord -> bool), NoDup (filter f (grid sh)).
Proof.
  intros sh f. apply (StronglySorted_NoDup _ row_major_lt).
  - intros a [H | [_ H]]; lia.
  - apply StronglySorted_filter. destruct sh as [R C]. apply grid_rows_sorted.
Qed.

(** X16.  [Cube.voronoi_binning] gives every spaxel of a bin the same
    spectrum, the channel-wise mean over the spaxels of that bin (for the
    data and for the variance alike); a spaxel with a negative bin number
    stays zero, and a spaxel whose signal is NaN is NaN in every
    channel. *)
Theorem voronoi_bins_share_mean :
  forall (sh : nat * nat) (nchan : nat) (signal : coord -> float)
         (bin_num : list Z) (arr : coord -> list float),
    let valid := filter (fun c => negb (is_nan (signal c))) (grid sh) in
    let v := combine valid bin_num in
    List.length bin_num = List.length valid ->
    bin_num <> [] ->
    exists b,
      binned_array sh nchan signal bin_num arr = inr b /\
      (forall c i, In (c, i) v -> (0 <= i)%Z ->
                   b c = bin_mean arr nchan (samebin_coords v i)) /\
      (forall c i, In (c, i) v -> (i < 0)%Z -> b c = repeat 0 nchan) /\
      (forall c, In c (grid sh) -> is_nan (signal c) = true ->
                 b c = repeat nan nchan).
Proof.
  intros sh nchan signal bin_num arr valid v Hlen Hne.
  unfold binned_array. cbv zeta. fold valid.
  rewrite Hlen, Nat.eqb_refl. cbn [negb].
  destruct (max_nonempty bin_num Hne) as (m & Hm). rewrite Hm.
  destruct (max_is_max bin_num m Hm) as (_ & Hall).
  rewrite Forall_forall in Hall.
  fold v.
  assert (Hfst : map fst v = valid)
    by (subst v; apply map_fst_combine; now symmetry).
  assert (Hnd : NoDup (map fst v))
    by (rewrite Hfst; apply filter_grid_NoDup).
  eexists. split; [reflexivity |]. split; [| split].
  - intros c i Hin Hi. rewrite (bin_loop_member arr nchan v c i Hnd Hin).
    assert (Hle : (i <= m)%Z) by (apply Hall; exact (in_combine_r _ _ _ _ Hin)).
    replace ((0 <=? i)%Z && (i <? Z.of_nat (Z.to_nat (m + 1)))%Z) with true;
      [reflexivity |].
    symmetry. apply andb_true_iff. split;
      [apply Z.leb_le | apply Z.ltb_lt]; lia.
  - intros c i Hin Hi. rewrite (bin_loop_member arr nchan v c i Hnd Hin).
    replace (0 <=? i)%Z with false by (symmetry; apply Z.leb_gt; lia).
    cbn [andb].
    assert (Hv : In c valid) by exact (in_combine_l _ _ _ _ Hin).
    apply filter_In in Hv. destruct Hv as [_ Hv].
    apply negb_true_iff in Hv.
    destruct (existsb (coord_eqb c) _) eqn:F; [| reflexivity].
    apply existsb_coord_eqb in F. apply filter_In in F.
    destruct F as [_ F]. congruence.
  - intros c Hg Hnan. rewrite bin_loop_stranger.
    + replace (existsb (coord_eqb c)
                 (filter (fun c0 => is_nan (signal c0)) (grid sh))) with true;
        [reflexivity |].
      symmetry. apply existsb_coord_eqb. apply filter_In. now split.
    + rewrite Hfst. intros Hv. apply filter_In in Hv. destruct Hv as [_ Hv].
      rewrite Hnan in Hv. discriminate.
Qed.

End Cube_w80_binning.

(** ** The further properties on the sample inputs *)

Section On_more_samples.

Import onedspec Samples.

Local Open Scope float_scope.

(** X1 on the bright spectrum with the profile name 'lorentzian'. *)
Lemma linefit_unknown_function_sample :
  linefit unit ext0 "lorentzian" None [] (Some bounds3) 1 "SLSQP" [] None
    bright
  = (inl NameError, bright).
Proof.
  refine (linefit_unknown_function unit ext0 "lorentzian" None []
            (Some bounds3) 1 "SLSQP" [] None bright _ _).
  - discriminate.
  - discriminate.
Defined.

(** X2 on the bright spectrum, which stores a continuum of 1. *)
Lemma linefit_stored_continuum_sample :
  continuum_calls (trace (snd (fit (Some bounds3) bright)))
  = continuum_calls (trace bright).
Proof.
  refine (linefit_stored_continuum unit ext0 "gaussian" None []
            (Some bounds3) 1 "SLSQP" _ None bright (repeat 1 9) _).
  reflexivity.
Defined.


(** X4 on the spectrum without a stored continuum. *)
Lemma linefit_default_continuum_options_sample :
  valid_part None (self fresh) (restwl (self fresh))
  = Some (wl_ (prepared_of fresh)) /\
  valid_part None (self fresh) (data (self fresh))
  = Some (data_ (prepared_of fresh)) /\
  trace (heap_after_prepare fresh)
  = trace fresh
    ++ [CallContinuum (wl_ (prepared_of fresh)) (data_ (prepared_of fresh))
          [("niterate"%string, PInt 5); ("degr"%string, PInt 4);
           ("upper_threshold"%string, PInt 2);
           ("lower_threshold"%string, PInt 2);
           ("returns"%string, PStr "function")]] /\
  copts (heap_after_prepare fresh) = None /\
  continuum ext0 (wl_ (prepared_of fresh)) (data_ (prepared_of fresh))
    [("niterate"%string, PInt 5); ("degr"%string, PInt 4);
     ("upper_threshold"%string, PInt 2);
     ("lower_threshold"%string, PInt 2);
     ("returns"%string, PStr "function")]
  = inr (cont_ (prepared_of fresh)) /\
  Np.broadcast2 PrimFloat.sub (data_ (prepared_of fresh))
    (cont_ (prepared_of fresh)) = inr (s_ (prepared_of fresh)) /\
  fitcont (self (heap_after_prepare fresh)) = Some (cont_ (prepared_of fresh)).
Proof.
  refine (linefit_default_continuum_options unit ext0 "gaussian" None None
            fresh (prepared_of fresh) (heap_after_prepare fresh) _ _ _).
  - vm_compute. reflexivity.
  - reflexivity.
  - reflexivity.
Defined.

(** X5 on the spectrum on which [restwl] was never set. *)
Lemma linefit_without_restwl_sample :
  fst (fit (Some bounds3) no_restwl) = inl AttributeError /\
  trace (snd (fit (Some bounds3) no_restwl)) = trace no_restwl /\
  p0 (snd (fit (Some bounds3) no_restwl)) = p0 no_restwl /\
  em_model (self (snd (fit (Some bounds3) no_restwl)))
  = em_model (self no_restwl) /\
  fit_status (self (snd (fit (Some bounds3) no_restwl)))
  = fit_status (self no_restwl).
Proof.
  refine (linefit_without_restwl unit ext0 "gaussian" None []
            (Some bounds3) 1 "SLSQP"
            [("eps"%string, PNum 0x1.0624dd2f1a9fcp-10)] None no_restwl
            (repeat false 9)
            (fst (fit (Some bounds3) no_restwl))
            (snd (fit (Some bounds3) no_restwl)) _ _ _ _ _ _).
  - left. reflexivity.
  - discriminate.
  - reflexivity.
  - vm_compute. reflexivity.
  - reflexivity.
  - vm_compute. reflexivity.
Defined.

(** With flags for three of the nine pixels the mask of line 203 cannot
    be formed, and the exception is [ValueError]. *)
Example linefit_without_restwl_short_flags :
  valid_pixels None (self no_restwl_short_flags) = None /\
  fst (fit (Some bounds3) no_restwl_short_flags) = inl ValueError.
Proof.
  vm_compute. split; reflexivity.
Qed.

(** X6 on the spectrum without a stored continuum, with a fitting window
    that holds none of its wavelengths: the estimator is given no pixel
    and returns none. *)
Lemma linefit_no_valid_pixel_sample :
  valid_part far_window (self fresh) (data (self fresh)) = Some [] /\
  (List.length (cont_ (prepared_in far_window fresh)) <= 1)%nat /\
  s_ (prepared_in far_window fresh) = [] /\
  Np.mean (s_ (prepared_in far_window fresh)) = nan /\
  p0 (snd (fit_in far_window (Some bounds3) fresh))
  = Np.stride_div nan (npars_pc (prepared_in far_window fresh)) (p0 fresh) /\
  exists wv,
    trace (snd (fit_in far_window (Some bounds3) fresh))
    = trace (heap_after_prepare_in far_window fresh) ++ [CallMinimize wv] /\
    work_s wv = [] /\
    work_x0 wv
    = Np.stride_div nan (npars_pc (prepared_in far_window fresh)) (p0 fresh).
Proof.
  refine (linefit_no_valid_pixel unit ext0 "gaussian" far_window []
            bounds3 1 "SLSQP"
            [("eps"%string, PNum 0x1.0624dd2f1a9fcp-10)] None fresh
            (prepared_in far_window fresh)
            (heap_after_prepare_in far_window fresh)
            (fst (fit_in far_window (Some bounds3) fresh))
            (snd (fit_in far_window (Some bounds3) fresh)) _ _ _).
  - vm_compute. reflexivity.
  - vm_compute. reflexivity.
  - vm_compute. reflexivity.
Defined.

(** X17 on the bright spectrum, which stores a continuum of nine values,
    with a fitting window that keeps five of its nine pixels. *)
Lemma linefit_stored_continuum_shape_sample :
  fst (fit_in narrow_window (Some bounds3) bright) = inl ValueError /\
  trace (snd (fit_in narrow_window (Some bounds3) bright)) = trace bright /\
  p0 (snd (fit_in narrow_window (Some bounds3) bright)) = p0 bright /\
  em_model (self (snd (fit_in narrow_window (Some bounds3) bright)))
  = em_model (self bright) /\
  fit_status (self (snd (fit_in narrow_window (Some bounds3) bright)))
  = fit_status (self bright) /\
  fitcont (self (snd (fit_in narrow_window (Some bounds3) bright)))
  = Some (repeat 1 9).
Proof.
  refine (linefit_stored_continuum_shape unit ext0 "gaussian" narrow_window
            [] (Some bounds3) 1 "SLSQP"
            [("eps"%string, PNum 0x1.0624dd2f1a9fcp-10)] None bright
            (repeat false 9) [3; 4; 5; 6; 7] (repeat 3 5) (repeat 1 9)
            (fst (fit_in narrow_window (Some bounds3) bright))
            (snd (fit_in narrow_window (Some bounds3) bright))
            _ _ _ _ _ _ _ _ _ _).
  - left. reflexivity.
  - reflexivity.
  - vm_compute. reflexivity.
  - vm_compute. reflexivity.
  - vm_compute. reflexivity.
  - reflexivity.
  - simpl. lia.
  - simpl. lia.
  - simpl. lia.
  - vm_compute. reflexivity.
Defined.

(** X8 on a cube of two spaxels of nine pixels. *)
Lemma arg2cube_spectrum_sample :
  exists cube',
    datacube._arg2cube [(0, 0); (0, 1)]%Z (datacube.ArgSpectrum wavelengths)
      (fun _ => repeat 3 9)
    = (inr tt, cube') /\
    (forall c, In c [(0, 0); (0, 1)]%Z -> cube' c = wavelengths) /\
    (forall c, ~ In c [(0, 0); (0, 1)]%Z -> cube' c = repeat 3 9).
Proof.
  refine (arg2cube_spectrum wavelengths [(0, 0); (0, 1)]%Z
            (fun _ => repeat 3 9) _).
  intros c _. reflexivity.
Defined.

(** X9 on two components of a Gaussian fit, of which the name of the
    second ends with a space: it is read back without the space. *)
Lemma fit_table_component_names_sample :
  datacube.loadfit_component_names 3
    (datacube._fit_table rstrip ["n2"; "ha "] ["A"; "wl"; "s"])%string
  = inr ["n2"; "ha"]%string /\
  List.length
    (datacube.component
       (datacube._fit_table rstrip ["n2"; "ha "] ["A"; "wl"; "s"]))%string
  = 6%nat /\
  List.length
    (datacube.parameter
       (datacube._fit_table rstrip ["n2"; "ha "] ["A"; "wl"; "s"]))%string
  = 6%nat.
Proof.
  refine (fit_table_component_names rstrip ["n2"; "ha "]%string
            ["A"; "wl"; "s"]%string _).
  discriminate.
Defined.

(** X13 on the cube whose spaxel [(0, 0)] makes the estimator fail. *)
Lemma continuum_isolates_failures_sample :
  exists c,
    fst (datacube.continuum unit ext1 cube3 (Some (0, 10)) None) = inr c /\
    forall h,
      let fwidx := map (fun e => (0 <? e) && (e <? 10))
                       (datacube.rest_wavelength cube3) in
      let wl := Np.select fwidx (datacube.rest_wavelength cube3) in
      let s := Np.select fwidx (datacube.data cube3 h) in
      let local := datacube.continuum_default_copts in
      let local := if datacube.dict_mem "returns" local then local
                   else dict_set "returns" (PStr "function") local in
      (~ In h (datacube.spec_indices cube3) ->
       c h = repeat 0 (List.length s)) /\
      (In h (datacube.spec_indices cube3) ->
       datacube.edge_guard s = false ->
       c h = repeat nan (List.length s)) /\
      (In h (datacube.spec_indices cube3) ->
       forall e, continuum ext1 wl s local = inl e ->
                 c h = repeat nan (List.length s)) /\
      (In h (datacube.spec_indices cube3) ->
       datacube.edge_guard s = true ->
       forall v, continuum ext1 wl s local = inr v ->
                 List.length v = List.length s -> c h = v).
Proof.
  refine (continuum_isolates_failures unit ext1 cube3 0 10 None _ _).
  - reflexivity.
  - intros wl s d e. simpl. destruct (hd 0 s <? 0); intros H.
    + injection H as <-. right. reflexivity.
    + discriminate H.
Defined.

(** On that cube the spaxel [(0, 0)] is NaN and the spaxel [(0, 1)] holds
    the estimate. *)
Example continuum_sample :
  match fst (datacube.continuum unit ext1 cube3 (Some (0, 10)) None) with
  | inr c => map is_nan (c (0, 0)%Z) = repeat true 9 /\
             c (0, 1)%Z = repeat 0 9
  | inl _ => False
  end.
Proof.
  vm_compute. split; reflexivity.
Qed.

End On_more_samples.

Section On_cube_samples.

Import onedspec Samples.

Local Open Scope float_scope.

(** X14 on a cube of 2 x 2 spaxels without a mask, with the default
    centre. *)
Lemma spiral_visits_unmasked_sample :
  exists out,
    datacube._spiral (datacube.float_arith arctan2_coarse) false
      (snd (datacube._set_spec_indices (2%nat, 2%nat) None)) [] None
    = inr out /\
    NoDup out /\
    forall c, In c out <->
              (0 <= fst c < Z.of_nat 2)%Z /\
              (0 <= snd c < Z.of_nat 2)%Z /\
              fst (datacube._set_spec_indices (2%nat, 2%nat) None) c = false.
Proof.
  refine (spiral_visits_unmasked (datacube.float_arith arctan2_coarse)
            (2%nat, 2%nat) None [] None _).
  intros _. vm_compute. discriminate.
Defined.

(** X15 on the solution array of one Gaussian component: component 0 is
    read, component 1 raises [IndexError], component 2 and above raise
    [RuntimeError]. *)
Lemma w80_component_range_sample :
  ((1 < 1)%nat -> (2 < 3)%nat ->
   datacube.w80_parameters (Z.of_nat 3) (Z.of_nat 1) em_model1 (0, 0)%Z
   = inr (nth (1 + 3 * 1) em_model1 (fun _ => nan) (0, 0)%Z,
          nth (2 + 3 * 1) em_model1 (fun _ => nan) (0, 0)%Z,
          map (fun k => nth (k + 3 * 1) em_model1 (fun _ => nan) (0, 0)%Z)
              (seq 0 3))) /\
  (1%nat = 1%nat ->
   datacube.w80_parameters (Z.of_nat 3) (Z.of_nat 1) em_model1 (0, 0)%Z
   = inl IndexError) /\
  ((1 < 1)%nat ->
   datacube.w80_parameters (Z.of_nat 3) (Z.of_nat 1) em_model1 (0, 0)%Z
   = inl RuntimeError).
Proof.
  refine (w80_component_range 3 1 1 em_model1 (0, 0)%Z (fun _ => nan) _ _).
  - lia.
  - reflexivity.
Defined.

(** On that array the three cases are met by the components 0, 1 and 2. *)
Example w80_parameters_sample :
  datacube.w80_parameters 3 0 em_model1 (0, 0)%Z
  = inr (5000, 0x1.ccccccccccccdp+0, [4; 5000; 0x1.ccccccccccccdp+0]) /\
  datacube.w80_parameters 3 1 em_model1 (0, 0)%Z = inl IndexError /\
  datacube.w80_parameters 3 2 em_model1 (0, 0)%Z = inl RuntimeError.
Proof.
  vm_compute. repeat split.
Qed.

(** X16 on the data of the cube of two spaxels, both put in bin 0. *)
Lemma voronoi_bins_share_mean_sample :
  exists b,
    datacube.binned_array (1%nat, 2%nat) 9 (fun _ => 1) [0; 0]%Z
      (datacube.data cube3)
    = inr b /\
    (forall c i,
        In (c, i)
           (combine (filter (fun c => negb (is_nan 1))
                            (datacube.grid (1%nat, 2%nat))) [0; 0]%Z) ->
        (0 <= i)%Z ->
        b c = datacube.bin_mean (datacube.data cube3) 9
                (datacube.samebin_coords
                   (combine (filter (fun c => negb (is_nan 1))
                                    (datacube.grid (1%nat, 2%nat))) [0; 0]%Z)
                   i)) /\
    (forall c i,
        In (c, i)
           (combine (filter (fun c => negb (is_nan 1))
                            (datacube.grid (1%nat, 2%nat))) [0; 0]%Z) ->
        (i < 0)%Z -> b c = repeat 0 9) /\
    (forall c, In c (datacube.grid (1%nat, 2%nat)) -> is_nan 1 = true ->
               b c = repeat nan 9).
Proof.
  refine (voronoi_bins_share_mean (1%nat, 2%nat) 9 (fun _ => 1) [0; 0]%Z
            (datacube.data cube3) _ _).
  - vm_compute. reflexivity.
  - discriminate.
Defined.

(** On that cube, whose spaxels have the fluxes -3 and 3, both spaxels of
    the bin hold the mean flux 0. *)
Example binned_array_sample :
  match datacube.binned_array (1%nat, 2%nat) 9 (fun _ => 1) [0; 0]%Z
          (datacube.data cube3) with
  | inr b => b (0, 0)%Z = repeat 0 9 /\ b (0, 1)%Z = repeat 0 9
  | inl _ => False
  end.
Proof.
  vm_compute. split; reflexivity.
Qed.

End On_cube_samples.
